(** * Upload-and-poll controller of [frontend/static/frontend/js/scripts.js]

    A shallow embedding of the browser script: the values that
    [response.json()] produces live in a heap of objects, the two regions of
    the page are trees of DOM nodes, and every handler of the script is a
    function on the controller state.  Asynchronous handlers are cut at
    their [await]: the part before it issues the request, the part after it
    is a function of the outcome the browser delivers. *)

From Stdlib Require Import String Ascii List Bool Arith Lia DecimalString.
From stdpp Require Import base option list gmap.
Import ListNotations.
Local Open Scope string_scope.

(** ** JavaScript values *)

Module Js.

Definition loc := nat.

(** A Number is carried as the text [Number::toString] gives for it: the
    script never computes with numbers, it only prints and tests them. *)
Inductive val :=
  | VUndef
  | VNull
  | VBool (b : bool)
  | VNum (text : string)
  | VStr (s : string)
  | VRef (l : loc).

(** Own properties in insertion order; a key occurs at most once. *)
Inductive obj :=
  | OArr (elems : list val)
  | OObj (props : list (string * val)).

Inductive exn :=
  | TypeError
  | SyntaxError
  | Error (msg : string).

Inductive Res (A : Type) :=
  | Ok (a : A)
  | Throw (e : exn).
Arguments Ok {A} a.
Arguments Throw {A} e.

Definition val_eqb (a b : val) : bool :=
  match a, b with
  | VUndef, VUndef | VNull, VNull => true
  | VBool x, VBool y => Bool.eqb x y
  | VNum x, VNum y | VStr x, VStr y => String.eqb x y
  | VRef x, VRef y => Nat.eqb x y
  | _, _ => false
  end.

(** [a === b] for the operands the script compares (a value and a string
    literal). *)
Definition strict_eq (a b : val) : bool := val_eqb a b.

(** ToBoolean. *)
Definition truthy (v : val) : bool :=
  match v with
  | VUndef | VNull => false
  | VBool b => b
  | VNum t => negb (String.eqb t "0")
  | VStr s => negb (String.eqb s EmptyString)
  | VRef _ => true
  end.

Fixpoint own (k : string) (props : list (string * val)) : option val :=
  match props with
  | [] => None
  | (k', v) :: rest => if String.eqb k k' then Some v else own k rest
  end.

(** [JSON.parse] semantics of a repeated key: the last value wins, the key
    keeps its first position. *)
Fixpoint define (k : string) (v : val) (props : list (string * val))
  : list (string * val) :=
  match props with
  | [] => [(k, v)]
  | (k', v') :: rest =>
      if String.eqb k k' then (k', v) :: rest else (k', v') :: define k v rest
  end.

End Js.
Export Js.

Abbreviation heap := (gmap loc obj).

(** [v.k] for the property names the script reads ([status], [photos],
    [filename], [question], [extracted_text], [answers], [provider],
    [model], [content], [id]): none of them is defined on a prototype, so a
    primitive, an array and an object without the own property all give
    [undefined]; [undefined] and [null] have no properties. *)
Definition get (h : heap) (v : val) (k : string) : Res val :=
  match v with
  | VUndef | VNull => Throw TypeError
  | VBool _ | VNum _ | VStr _ => Ok VUndef
  | VRef l =>
      match h !! l with
      | Some (OObj props) => Ok (default VUndef (own k props))
      | Some (OArr _) => Ok VUndef
      | None => Throw TypeError
      end
  end.

(** [Array.prototype.join(",")] over already converted elements. *)
Fixpoint join (parts : list string) : string :=
  match parts with
  | [] => EmptyString
  | [p] => p
  | p :: rest => p ++ "," ++ join rest
  end.

Fixpoint sequence {A} (rs : list (Res A)) : Res (list A) :=
  match rs with
  | [] => Ok []
  | Ok a :: rest =>
      match sequence rest with Ok l => Ok (a :: l) | Throw e => Throw e end
  | Throw e :: _ => Throw e
  end.

(** ToString, as a template literal applies it to a substitution.  An object
    parsed from JSON prints as [[object Object]] unless it has an own
    [toString] property: that one is never callable, [valueOf] then yields
    no primitive, and the conversion throws.  An array joins its elements,
    [null] and [undefined] printing as nothing.  [fuel] bounds the nesting
    that is followed; a reference met at depth [fuel] prints as nothing,
    which is what engines print for a cyclic reference. *)
Fixpoint ToString_upto (fuel : nat) (h : heap) (v : val) : Res string :=
  match v with
  | VUndef => Ok "undefined"
  | VNull => Ok "null"
  | VBool true => Ok "true"
  | VBool false => Ok "false"
  | VNum t => Ok t
  | VStr s => Ok s
  | VRef l =>
      match fuel with
      | 0 => Ok EmptyString
      | S fuel' =>
          match h !! l with
          | Some (OObj props) =>
              match own "toString" props with
              | Some _ => Throw TypeError
              | None => Ok "[object Object]"
              end
          | Some (OArr elems) =>
              match
                sequence
                  (map (fun e => match e with
                                 | VUndef | VNull => Ok EmptyString
                                 | _ => ToString_upto fuel' h e
                                 end) elems)
              with
              | Ok parts => Ok (join parts)
              | Throw e => Throw e
              end
          | None => Throw TypeError
          end
      end
  end.

(** Values parsed from JSON are trees, so no chain of references is longer
    than the number of objects of the heap. *)
Definition ToString (h : heap) (v : val) : Res string :=
  ToString_upto (size h) h v.

(** ** JSON texts and [response.json()] *)

#[local] Unset Elimination Schemes.
Inductive Json :=
  | JNull
  | JBool (b : bool)
  | JNum (text : string)
  | JStr (s : string)
  | JArr (items : list Json)
  | JObj (fields : list (string * Json)).
#[local] Set Elimination Schemes.

Definition fresh_loc (h : heap) : loc := fresh (dom h).

(** The elements of an array, left to right. *)
Definition alloc_items (alloc : Json -> heap -> val * heap)
  : list Json -> heap -> list val * heap :=
  fix go js h :=
    match js with
    | [] => ([], h)
    | j :: js' =>
        let '(v, h1) := alloc j h in
        let '(vs, h2) := go js' h1 in
        (v :: vs, h2)
    end.

(** The members of an object, in the order of the text. *)
Definition alloc_fields (alloc : Json -> heap -> val * heap)
  : list (string * Json) -> list (string * val) -> heap
    -> list (string * val) * heap :=
  fix go fs props h :=
    match fs with
    | [] => (props, h)
    | (k, j) :: fs' =>
        let '(v, h1) := alloc j h in
        go fs' (define k v props) h1
    end.

(** The objects of a parsed text are allocated children first. *)
Fixpoint alloc_json (j : Json) (h : heap) : val * heap :=
  match j with
  | JNull => (VNull, h)
  | JBool b => (VBool b, h)
  | JNum t => (VNum t, h)
  | JStr s => (VStr s, h)
  | JArr items =>
      let '(vs, h1) := alloc_items alloc_json items h in
      let l := fresh_loc h1 in
      (VRef l, <[l := OArr vs]> h1)
  | JObj fields =>
      let '(props, h1) := alloc_fields alloc_json fields [] h in
      let l := fresh_loc h1 in
      (VRef l, <[l := OObj props]> h1)
  end.

(** The member of an object text that [JSON.parse] keeps for a key: the
    last one. *)
Fixpoint last_member (k : string) (fs : list (string * Json)) (found : option Json)
  : option Json :=
  match fs with
  | [] => found
  | (k', j) :: fs' => last_member k fs' (if String.eqb k k' then Some j else found)
  end.

Definition json_field (k : string) (j : Json) : option Json :=
  match j with
  | JObj fields => last_member k fields None
  | _ => None
  end.

(** ** DOM nodes *)

#[local] Unset Elimination Schemes.
Inductive Node :=
  | Text (s : string)
  | Elem (tag : string) (attrs : list (string * string)) (children : list Node).
#[local] Set Elimination Schemes.

(** A position below a node: the child indices from the node down. *)
Definition path := list nat.

Definition createElement (tag : string) : Node := Elem tag [] [].

Fixpoint set_attr (k v : string) (attrs : list (string * string))
  : list (string * string) :=
  match attrs with
  | [] => [(k, v)]
  | (k', v') :: rest =>
      if String.eqb k k' then (k', v) :: rest else (k', v') :: set_attr k v rest
  end.

Definition set_className (c : string) (n : Node) : Node :=
  match n with
  | Elem t a kids => Elem t (set_attr "class" c a) kids
  | Text s => Text s
  end.

Definition set_src (u : string) (n : Node) : Node :=
  match n with
  | Elem t a kids => Elem t (set_attr "src" u a) kids
  | Text s => Text s
  end.

Definition appendChild (child : Node) (n : Node) : Node :=
  match n with
  | Elem t a kids => Elem t a (kids ++ [child])
  | Text s => Text s
  end.

Fixpoint attr (k : string) (attrs : list (string * string)) : option string :=
  match attrs with
  | [] => None
  | (k', v) :: rest => if String.eqb k k' then Some v else attr k rest
  end.

Definition is_space (c : ascii) : bool :=
  match nat_of_ascii c with
  | 9 | 10 | 12 | 13 | 32 => true
  | _ => false
  end.

(** The tokens of a [class] attribute: maximal runs without white space. *)
Fixpoint tokens (cur : string) (s : string) : list string :=
  match s with
  | EmptyString => match cur with EmptyString => [] | _ => [cur] end
  | String c rest =>
      if is_space c
      then match cur with
           | EmptyString => tokens EmptyString rest
           | _ => cur :: tokens EmptyString rest
           end
      else tokens (cur ++ String c EmptyString) rest
  end.

Definition has_class (c : string) (n : Node) : bool :=
  match n with
  | Text _ => false
  | Elem _ a _ =>
      match attr "class" a with
      | Some v => existsb (String.eqb c) (tokens EmptyString v)
      | None => false
      end
  end.

(** [n.querySelector('.' + c)]: the first descendant of [n], in document
    order, that carries the class; [None] is the script's [null]. *)
Fixpoint querySelector (c : string) (n : Node) : option path :=
  match n with
  | Text _ => None
  | Elem _ _ kids =>
      (fix scan (i : nat) (ks : list Node) : option path :=
         match ks with
         | [] => None
         | k :: ks' =>
             if has_class c k then Some [i]
             else match querySelector c k with
                  | Some p => Some (i :: p)
                  | None => scan (S i) ks'
                  end
         end) 0 kids
  end.

(** [appendChild] on the node a path points to. *)
Fixpoint append_at (p : path) (child : Node) (n : Node) : Node :=
  match p with
  | [] => appendChild child n
  | i :: p' =>
      match n with
      | Elem t a kids => Elem t a (alter (append_at p' child) i kids)
      | Text s => Text s
      end
  end.

(** ** The text of the templates *)

Definition dq : string := String (ascii_of_nat 34) EmptyString.
Definition nl : string := String (ascii_of_nat 10) EmptyString.

Fixpoint spaces (n : nat) : string :=
  match n with
  | 0 => EmptyString
  | S n' => String (ascii_of_nat 32) (spaces n')
  end.

Definition header_markup (status1 status2 : string) : string :=
  "<h2>Results (Status: <span class=" ++ dq ++ "status " ++ status1 ++ dq ++ ">"
  ++ status2 ++ "</span>)</h2>".

Definition card_markup (filename questionText : string) : string :=
  nl ++ spaces 16 ++ "<h3>Question from " ++ filename ++ "</h3>"
  ++ nl ++ spaces 16 ++ "<p><strong>Extracted Text:</strong> " ++ questionText ++ "</p>"
  ++ nl ++ spaces 16 ++ "<div class=" ++ dq ++ "answer-grid" ++ dq ++ "></div>"
  ++ nl ++ spaces 12.

Definition answer_markup (provider model content status1 status2 : string) : string :=
  nl ++ spaces 24 ++ "<h4>" ++ provider ++ " (" ++ model ++ ")</h4>"
  ++ nl ++ spaces 24 ++ "<p>" ++ content ++ "</p>"
  ++ nl ++ spaces 24 ++ "<small>Status: <span class=" ++ dq ++ "status " ++ status1 ++ dq ++ ">"
  ++ status2 ++ "</span></small>"
  ++ nl ++ spaces 20.

Definition processing_markup : string := "<p>Processing your images...</p>".

Definition upload_failed_markup : string :=
  "<p class=" ++ dq ++ "status error" ++ dq ++ ">Upload failed. Please try again.</p>".

Definition polling_markup (uploadId : string) : string :=
  "<p>Polling for results for upload ID: " ++ uploadId ++ "</p>".

Definition poll_failed_markup : string :=
  "<p class=" ++ dq ++ "status error" ++ dq
  ++ ">Error fetching results. Please check the console.</p>".

Definition select_images_message : string :=
  "Please select one or more images to upload.".

(** ** What the browser hands to the script *)

(** A selected file; [data_url] is what [readAsDataURL] yields for it. *)
Record File := { file_name : string; data_url : string }.

Record Request := {
  req_method : string;
  req_url : string;
  req_body : option (list (string * File))   (* the entries of a FormData *)
}.

Inductive Body :=
  | Malformed            (* [response.json()] rejects *)
  | Parsed (j : Json).

Inductive Outcome :=
  | Rejected                                 (* [fetch] rejects: no response *)
  | Response (status : nat) (body : Body).

Definition response_ok (status : nat) : bool :=
  ((200 <=? status) && (status <=? 299))%nat.

Definition status_text (status : nat) : string :=
  NilEmpty.string_of_uint (Nat.to_uint status).

(** ** Controller state *)

Record State := {
  selectedFiles : list File;
  heap_of : heap;
  button_disabled : bool;                    (* uploadButton.disabled *)
  button_text : string;                      (* uploadButton.textContent *)
  imagePreview : list Node;                  (* children of #image-preview *)
  resultsSection : list Node;                (* children of #results-section *)
  readers : list File;                       (* FileReaders still reading *)
  intervals : gmap nat val;                  (* active timers and their uploadId *)
  next_interval : nat;
  requests : list Request;                   (* every fetch issued so far *)
  alerts : list string;
  console : list (string * exn)
}.

Definition set_selectedFiles (x : list File) (s : State) : State :=
  {| selectedFiles := x; heap_of := heap_of s;
     button_disabled := button_disabled s; button_text := button_text s;
     imagePreview := imagePreview s; resultsSection := resultsSection s;
     readers := readers s; intervals := intervals s;
     next_interval := next_interval s; requests := requests s;
     alerts := alerts s; console := console s |}.

Definition set_heap (x : heap) (s : State) : State :=
  {| selectedFiles := selectedFiles s; heap_of := x;
     button_disabled := button_disabled s; button_text := button_text s;
     imagePreview := imagePreview s; resultsSection := resultsSection s;
     readers := readers s; intervals := intervals s;
     next_interval := next_interval s; requests := requests s;
     alerts := alerts s; console := console s |}.

Definition set_button_disabled (x : bool) (s : State) : State :=
  {| selectedFiles := selectedFiles s; heap_of := heap_of s;
     button_disabled := x; button_text := button_text s;
     imagePreview := imagePreview s; resultsSection := resultsSection s;
     readers := readers s; intervals := intervals s;
     next_interval := next_interval s; requests := requests s;
     alerts := alerts s; console := console s |}.

Definition set_button_text (x : string) (s : State) : State :=
  {| selectedFiles := selectedFiles s; heap_of := heap_of s;
     button_disabled := button_disabled s; button_text := x;
     imagePreview := imagePreview s; resultsSection := resultsSection s;
     readers := readers s; intervals := intervals s;
     next_interval := next_interval s; requests := requests s;
     alerts := alerts s; console := console s |}.

Definition set_imagePreview (x : list Node) (s : State) : State :=
  {| selectedFiles := selectedFiles s; heap_of := heap_of s;
     button_disabled := button_disabled s; button_text := button_text s;
     imagePreview := x; resultsSection := resultsSection s;
     readers := readers s; intervals := intervals s;
     next_interval := next_interval s; requests := requests s;
     alerts := alerts s; console := console s |}.

Definition set_resultsSection (x : list Node) (s : State) : State :=
  {| selectedFiles := selectedFiles s; heap_of := heap_of s;
     button_disabled := button_disabled s; button_text := button_text s;
     imagePreview := imagePreview s; resultsSection := x;
     readers := readers s; intervals := intervals s;
     next_interval := next_interval s; requests := requests s;
     alerts := alerts s; console := console s |}.

Definition set_readers (x : list File) (s : State) : State :=
  {| selectedFiles := selectedFiles s; heap_of := heap_of s;
     button_disabled := button_disabled s; button_text := button_text s;
     imagePreview := imagePreview s; resultsSection := resultsSection s;
     readers := x; intervals := intervals s;
     next_interval := next_interval s; requests := requests s;
     alerts := alerts s; console := console s |}.

Definition set_intervals (x : gmap nat val) (s : State) : State :=
  {| selectedFiles := selectedFiles s; heap_of := heap_of s;
     button_disabled := button_disabled s; button_text := button_text s;
     imagePreview := imagePreview s; resultsSection := resultsSection s;
     readers := readers s; intervals := x;
     next_interval := next_interval s; requests := requests s;
     alerts := alerts s; console := console s |}.

Definition set_next_interval (x : nat) (s : State) : State :=
  {| selectedFiles := selectedFiles s; heap_of := heap_of s;
     button_disabled := button_disabled s; button_text := button_text s;
     imagePreview := imagePreview s; resultsSection := resultsSection s;
     readers := readers s; intervals := intervals s; next_interval := x;
     requests := requests s; alerts := alerts s; console := console s |}.

Definition set_requests (x : list Request) (s : State) : State :=
  {| selectedFiles := selectedFiles s; heap_of := heap_of s;
     button_disabled := button_disabled s; button_text := button_text s;
     imagePreview := imagePreview s; resultsSection := resultsSection s;
     readers := readers s; intervals := intervals s;
     next_interval := next_interval s; requests := x;
     alerts := alerts s; console := console s |}.

Definition set_alerts (x : list string) (s : State) : State :=
  {| selectedFiles := selectedFiles s; heap_of := heap_of s;
     button_disabled := button_disabled s; button_text := button_text s;
     imagePreview := imagePreview s; resultsSection := resultsSection s;
     readers := readers s; intervals := intervals s;
     next_interval := next_interval s; requests := requests s;
     alerts := x; console := console s |}.

Definition set_console (x : list (string * exn)) (s : State) : State :=
  {| selectedFiles := selectedFiles s; heap_of := heap_of s;
     button_disabled := button_disabled s; button_text := button_text s;
     imagePreview := imagePreview s; resultsSection := resultsSection s;
     readers := readers s; intervals := intervals s;
     next_interval := next_interval s; requests := requests s;
     alerts := alerts s; console := x |}.

(** ** Computations of the script: state and exceptions *)

Definition M (A : Type) : Type := State -> Res A * State.

Definition ret {A} (a : A) : M A := fun s => (Ok a, s).

Definition throw {A} (e : exn) : M A := fun s => (Throw e, s).

Definition bind {A B} (m : M A) (k : A -> M B) : M B :=
  fun s =>
    match m s with
    | (Ok a, s') => k a s'
    | (Throw e, s') => (Throw e, s')
    end.

Notation "'let!' x ':=' m 'in' k" := (bind m (fun x => k))
  (at level 10, x name, m at level 100, k at level 200).

(** [try { m } catch (error) { handler }] *)
Definition try_catch (m : M unit) (handler : exn -> M unit) : M unit :=
  fun s =>
    match m s with
    | (Ok a, s') => (Ok a, s')
    | (Throw e, s') => handler e s'
    end.

Definition modify (f : State -> State) : M unit := fun s => (Ok tt, f s).

Definition read {A} (f : heap -> Res A) : M A := fun s => (f (heap_of s), s).

Definition get_prop (v : val) (k : string) : M val := read (fun h => get h v k).

Definition to_string (v : val) : M string := read (fun h => ToString h v).

(** [a && b] and [a || b] as values. *)
Definition js_and (a b : M val) : M val :=
  let! x := a in if truthy x then b else ret x.

Definition js_or (a b : M val) : M val :=
  let! x := a in if truthy x then ret x else b.

Definition when (c : bool) (m : M unit) : M unit := if c then m else ret tt.

(** One turn of [forEach]: the element is read when its turn comes. *)
Definition visit {A} (l : loc) (k : nat) (cb : A -> val -> M A) (a : A) : M A :=
  fun s =>
    match heap_of s !! l with
    | Some (OArr elems) =>
        match elems !! k with
        | Some e => cb a e s
        | None => (Ok a, s)
        end
    | _ => (Ok a, s)
    end.

(** [arr.forEach(cb)] where the callback updates a local [a] of the caller;
    the length is read once, before the first turn. *)
Fixpoint forEach_from {A} (n k : nat) (l : loc) (cb : A -> val -> M A) (a : A)
  : M A :=
  match n with
  | 0 => ret a
  | S n' =>
      let! a' := visit l k cb a in
      forEach_from n' (S k) l cb a'
  end.

(** Only an array has a callable [forEach]: on [undefined] or [null] the
    property read throws, on anything else the call does. *)
Definition forEach {A} (v : val) (cb : A -> val -> M A) (a : A) : M A :=
  fun s =>
    match v with
    | VRef l =>
        match heap_of s !! l with
        | Some (OArr elems) => forEach_from (length elems) 0 l cb a s
        | _ => (Throw TypeError, s)
        end
    | _ => (Throw TypeError, s)
    end.

(** An async function or handler that nobody awaits: what it throws is a
    rejected promise that is dropped. *)
Definition detached (m : M unit) : State -> State := fun s => snd (m s).

Definition console_error (label : string) (e : exn) : M unit :=
  modify (fun s => set_console (console s ++ [(label, e)]) s).

Definition alert (msg : string) : M unit :=
  modify (fun s => set_alerts (alerts s ++ [msg]) s).

Definition fetch (r : Request) : M unit :=
  modify (fun s => set_requests (requests s ++ [r]) s).

Definition setInterval (uploadId : val) : M nat :=
  fun s =>
    (Ok (next_interval s),
     set_next_interval (S (next_interval s))
       (set_intervals (<[next_interval s := uploadId]> (intervals s)) s)).

Definition clearInterval (i : nat) : M unit :=
  modify (fun s => set_intervals (delete i (intervals s)) s).

Definition enable_button : M unit :=
  let! _ := modify (set_button_disabled false) in
  modify (set_button_text "Upload and Process").

(** ** The script *)

Section Controller.

(** The HTML fragment parser behind [innerHTML = ...] is the browser's. *)
Variable parse : string -> list Node.

Definition set_innerHTML (markup : string) (n : Node) : Node :=
  match n with
  | Elem t a _ => Elem t a (parse markup)
  | Text s => Text s
  end.

Definition results_innerHTML (markup : string) : M unit :=
  modify (set_resultsSection (parse markup)).

Definition results_appendChild (n : Node) : M unit :=
  modify (fun s => set_resultsSection (resultsSection s ++ [n]) s).

(** *** [fileInput] change and [renderImagePreviews] *)

(** Each file gets a FileReader whose [onload] appends the thumbnail. *)
Definition renderImagePreviews : M unit :=
  let! _ := modify (set_imagePreview (parse EmptyString)) in
  modify (fun s => set_readers (readers s ++ selectedFiles s) s).

Definition fileInput_change (files : list File) : State -> State :=
  detached
    (let! _ := modify (set_selectedFiles files) in
     renderImagePreviews).

Definition thumbnail (result : string) : Node :=
  let div := createElement "div" in
  let div := set_className "image-preview-item" div in
  let img := createElement "img" in
  let img := set_src result img in
  appendChild img div.

(** [reader.onload] of the [k]-th pending reader. *)
Definition reader_onload (k : nat) : State -> State :=
  fun s =>
    match readers s !! k with
    | Some file =>
        set_imagePreview (imagePreview s ++ [thumbnail (data_url file)])
          (set_readers (delete k (readers s)) s)
    | None => s
    end.

(** A read that fails: the script has set no [onerror]. *)
Definition reader_onerror (k : nat) : State -> State :=
  fun s => set_readers (delete k (readers s)) s.

(** *** [renderResults] *)

Definition render_answer (answerGrid : option path) (resultCard : Node)
    (answer : val) : M Node :=
  let answerCard := createElement "div" in
  let answerCard := set_className "answer-card" answerCard in
  let! provider := get_prop answer "provider" in
  let! provider := to_string provider in
  let! model := get_prop answer "model" in
  let! model := to_string model in
  let! content := js_or (get_prop answer "content") (ret (VStr "No answer yet...")) in
  let! content := to_string content in
  let! status1 := get_prop answer "status" in
  let! status1 := to_string status1 in
  let! status2 := get_prop answer "status" in
  let! status2 := to_string status2 in
  let answerCard :=
    set_innerHTML (answer_markup provider model content status1 status2) answerCard in
  match answerGrid with
  | Some p => ret (append_at p answerCard resultCard)
  | None => throw TypeError
  end.

Definition render_photo (_ : unit) (photo : val) : M unit :=
  let resultCard := createElement "div" in
  let resultCard := set_className "result-card" resultCard in
  let questionText := VStr "Extracting text..." in
  let! c := js_and (get_prop photo "question")
                   (let! q := get_prop photo "question" in get_prop q "extracted_text") in
  let! questionText :=
    if truthy c
    then let! q := get_prop photo "question" in get_prop q "extracted_text"
    else ret questionText in
  let! filename := get_prop photo "filename" in
  let! filename := to_string filename in
  let! questionText := to_string questionText in
  let resultCard := set_innerHTML (card_markup filename questionText) resultCard in
  let answerGrid := querySelector "answer-grid" resultCard in
  let! c := js_and (get_prop photo "question")
                   (let! q := get_prop photo "question" in get_prop q "answers") in
  let! resultCard :=
    if truthy c
    then let! q := get_prop photo "question" in
         let! answers := get_prop q "answers" in
         forEach answers (render_answer answerGrid) resultCard
    else ret resultCard in
  results_appendChild resultCard.

Definition renderResults (data : val) : M unit :=
  let! status1 := get_prop data "status" in
  let! status1 := to_string status1 in
  let! status2 := get_prop data "status" in
  let! status2 := to_string status2 in
  let! _ := results_innerHTML (header_markup status1 status2) in
  let! photos := get_prop data "photos" in
  forEach photos render_photo tt.

(** *** [uploadButton] click *)

Definition formData (files : list File) : list (string * File) :=
  map (fun file => ("uploaded_photos", file)) files.

(** Up to the [await fetch(...)]. *)
Definition uploadButton_click : State -> State :=
  detached
    (fun s =>
       if (length (selectedFiles s) =? 0)%nat
       then alert select_images_message s
       else
         (let! _ := modify (set_button_disabled true) in
          let! _ := modify (set_button_text "Uploading...") in
          let! _ := results_innerHTML processing_markup in
          fetch {| req_method := "POST"; req_url := "/api/uploads/";
                   req_body := Some (formData (selectedFiles s)) |}) s).

(** [await response.json()] *)
Definition response_json (body : Body) : M val :=
  match body with
  | Malformed => throw SyntaxError
  | Parsed j =>
      fun s =>
        let '(v, h) := alloc_json j (heap_of s) in
        (Ok v, set_heap h s)
  end.

(** What the [await]ed [fetch] gives, and the [response.ok] test after it. *)
Definition checked_response (o : Outcome) : M Body :=
  match o with
  | Rejected => throw TypeError
  | Response status body =>
      if negb (response_ok status)
      then throw (Error ("HTTP error! status: " ++ status_text status))
      else ret body
  end.

(** The async function runs to its end inside the caller, and an exception in
    it rejects the promise it returns instead of reaching the caller. *)
Definition pollForResults (uploadId : val) : M unit :=
  fun s =>
    (Ok tt,
     detached
       (let! id := to_string uploadId in
        let! _ := results_innerHTML (polling_markup id) in
        let! _ := setInterval uploadId in
        ret tt) s).

Definition upload_failed (error : exn) : M unit :=
  let! _ := console_error "Upload failed:" error in
  let! _ := results_innerHTML upload_failed_markup in
  enable_button.

(** From the [await fetch(...)] on, given what the request came to. *)
Definition upload_settled (o : Outcome) : State -> State :=
  detached
    (try_catch
       (let! body := checked_response o in
        let! result := response_json body in
        let! id := get_prop result "id" in
        pollForResults id)
       upload_failed).

(** *** The interval callback *)

Definition poll_failed (interval : nat) (error : exn) : M unit :=
  let! _ := console_error "Polling failed:" error in
  let! _ := clearInterval interval in
  let! _ := results_innerHTML poll_failed_markup in
  enable_button.

Definition poll_url (uploadId : string) : string :=
  "/api/uploads/" ++ uploadId ++ "/".

(** A tick of timer [interval], up to the [await fetch(...)].  A timer that
    was cleared does not fire. *)
Definition interval_tick (interval : nat) : State -> State :=
  fun s =>
    match intervals s !! interval with
    | None => s
    | Some uploadId =>
        detached
          (try_catch
             (let! id := to_string uploadId in
              fetch {| req_method := "GET"; req_url := poll_url id;
                       req_body := None |})
             (poll_failed interval)) s
    end.

(** [status === 'done' || status === 'error'] *)
Definition is_terminal (status : val) : bool :=
  strict_eq status (VStr "done") || strict_eq status (VStr "error").

(** The rest of that tick, given what its request came to. *)
Definition poll_settled (interval : nat) (o : Outcome) : State -> State :=
  detached
    (try_catch
       (let! body := checked_response o in
        let! data := response_json body in
        let! _ := renderResults data in
        let! c := js_or (let! st := get_prop data "status" in
                         ret (VBool (strict_eq st (VStr "done"))))
                        (let! st := get_prop data "status" in
                         ret (VBool (strict_eq st (VStr "error")))) in
        when (truthy c)
          (let! _ := clearInterval interval in
           enable_button))
       (poll_failed interval)).

(** *** The page as a transition system *)

Inductive Event :=
  | Change (files : list File)
  | ReaderLoad (k : nat)
  | ReaderError (k : nat)
  | Click
  | UploadSettled (o : Outcome)
  | Tick (interval : nat)
  | PollSettled (interval : nat) (o : Outcome).

(** A disabled button receives no click. *)
Definition step (s : State) (e : Event) : State :=
  match e with
  | Change files => fileInput_change files s
  | ReaderLoad k => reader_onload k s
  | ReaderError k => reader_onerror k s
  | Click => if button_disabled s then s else uploadButton_click s
  | UploadSettled o => upload_settled o s
  | Tick i => interval_tick i s
  | PollSettled i o => poll_settled i o s
  end.

Definition run (s : State) (es : list Event) : State := fold_left step es s.

End Controller.

(** The page once the script has loaded.  Its markup is not part of the
    script: the regions are taken empty and the button enabled. *)
Definition initial : State :=
  {| selectedFiles := []; heap_of := ∅; button_disabled := false;
     button_text := "Upload and Process"; imagePreview := [];
     resultsSection := []; readers := []; intervals := ∅; next_interval := 0;
     requests := []; alerts := []; console := [] |}.

(** ** A fragment parser for well-formed markup

    Enough of the HTML fragment algorithm for the markup the script writes
    when the substituted texts contain no markup of their own: start tags
    with quoted attributes, end tags and text.  It instantiates [parse] in
    the examples. *)

Module Html.

Inductive token :=
  | TText (s : string)
  | TOpen (tag : string) (attrs : list (string * string))
  | TClose (tag : string).

Definition snoc (s : string) (c : ascii) : string := s ++ String c EmptyString.

Inductive attr_mode :=
  | Between
  | InKey (key : string)
  | InValue (key value : string).

(** [ key="value"]* *)
Fixpoint lex_attrs (m : attr_mode) (s : string) : list (string * string) :=
  match s with
  | EmptyString => []
  | String c rest =>
      match m with
      | Between => if is_space c then lex_attrs Between rest
                   else lex_attrs (InKey (String c EmptyString)) rest
      | InKey key =>
          if Ascii.eqb c (ascii_of_nat 61) then
            match rest with
            | String _ rest' => lex_attrs (InValue key EmptyString) rest'
            | EmptyString => []
            end
          else lex_attrs (InKey (snoc key c)) rest
      | InValue key value =>
          if Ascii.eqb c (ascii_of_nat 34)
          then (key, value) :: lex_attrs Between rest
          else lex_attrs (InValue key (snoc value c)) rest
      end
  end.

Fixpoint split_name (name : string) (s : string) : string * string :=
  match s with
  | EmptyString => (name, EmptyString)
  | String c rest =>
      if is_space c then (name, rest) else split_name (snoc name c) rest
  end.

Definition tag_token (inside : string) : token :=
  match inside with
  | String c rest =>
      if Ascii.eqb c (ascii_of_nat 47) then TClose rest
      else let '(name, more) := split_name EmptyString inside in
           TOpen name (lex_attrs Between more)
  | EmptyString => TText "<>"
  end.

Inductive lex_mode :=
  | InText (acc : string)
  | InTag (acc : string).

Definition flush_text (acc : string) : list token :=
  match acc with EmptyString => [] | _ => [TText acc] end.

Fixpoint lex (m : lex_mode) (s : string) : list token :=
  match s with
  | EmptyString =>
      match m with
      | InText acc => flush_text acc
      | InTag acc => [TText (String (ascii_of_nat 60) acc)]
      end
  | String c rest =>
      match m with
      | InText acc =>
          if Ascii.eqb c (ascii_of_nat 60)
          then flush_text acc ++ lex (InTag EmptyString) rest
          else lex (InText (snoc acc c)) rest
      | InTag acc =>
          if Ascii.eqb c (ascii_of_nat 62)
          then tag_token acc :: lex (InText EmptyString) rest
          else lex (InTag (snoc acc c)) rest
      end
  end.

(** An open element: its tag, its attributes, its children so far. *)
Definition frame : Type := string * list (string * string) * list Node.

Definition add_node (n : Node) (open : list frame) (top : list Node)
  : list frame * list Node :=
  match open with
  | (t, a, kids) :: outer => ((t, a, (kids ++ [n])%list) :: outer, top)
  | [] => ([], (top ++ [n])%list)
  end.

Definition build_step (st : list frame * list Node) (tk : token)
  : list frame * list Node :=
  let '(open, top) := st in
  match tk with
  | TText s => add_node (Text s) open top
  | TOpen t a => ((t, a, []) :: open, top)
  | TClose _ =>
      match open with
      | (t, a, kids) :: outer => add_node (Elem t a kids) outer top
      | [] => (open, top)
      end
  end.

(** Elements still open at the end of the text are closed there. *)
Fixpoint close_all (pending : list Node) (open : list frame) (top : list Node)
  : list Node :=
  match open with
  | [] => (top ++ pending)%list
  | (t, a, kids) :: outer => close_all [Elem t a (kids ++ pending)] outer top
  end.

Definition parse_html (markup : string) : list Node :=
  let '(open, top) :=
    fold_left build_step (lex (InText EmptyString) markup) ([], []) in
  close_all [] open top.

End Html.

(** ** Notions used in the statements *)

Local Open Scope list_scope.

(** A computation that, whatever the results region holds, gives [r] and
    appends [out] to that region, touching nothing else. *)
Definition appends {A} (m : M A) (s : State) (r : Res A) (out : list Node) : Prop :=
  forall X, m (set_resultsSection X s) = (r, set_resultsSection (X ++ out) s).

Definition appending {A} (m : M A) : Prop :=
  forall s, exists r out, appends m s r out.

(** A computation that leaves the page alone. *)
Definition silent {A} (m : M A) : Prop :=
  forall s, exists r, appends m s r [].

(** A computation that appends one node if it returns. *)
Definition one_card {A} (m : M A) : Prop :=
  forall s, exists r out,
    appends m s r out /\ forall a, r = Ok a -> length out = 1.

(** The part of [renderResults] after the header. *)
Definition render_cards (parse : string -> list Node) (data : val) : M unit :=
  let! photos := get_prop data "photos" in
  forEach photos (render_photo parse) tt.


(** *** Sample data *)

Definition photo_a : File :=
  {| file_name := "a.png"; data_url := "data:image/png;base64,AAAA" |}.

Definition photo_b : File :=
  {| file_name := "b.png"; data_url := "data:image/png;base64,BBBB" |}.

Definition record_processing : Json :=
  JObj [("status", JStr "processing"); ("photos", JArr [])].

Definition record_done : Json :=
  JObj [("status", JStr "done");
        ("photos", JArr [
           JObj [("filename", JStr "a.png");
                 ("question", JObj [
                    ("extracted_text", JStr "2+2=?");
                    ("answers", JArr [
                       JObj [("provider", JStr "openai"); ("model", JStr "gpt-x");
                             ("content", JStr "4"); ("status", JStr "complete")]])])]])].


Definition record_without_photos : Json :=
  JObj [("status", JStr "processing")].

(** Two files selected, upload accepted with id "abc": the page is polling. *)
Definition polling : State :=
  run Html.parse_html initial
    [Change [photo_a; photo_b]; Click;
     UploadSettled (Response 201 (Parsed (JObj [("id", JStr "abc")])))].

(** Every event but a change of the selection. *)
Definition same_selection (e : Event) : Prop :=
  match e with
  | Change _ => False
  | _ => True
  end.

(** Every node of the preview region is the thumbnail of one of [files]. *)
Definition thumbnails_of (files : list File) (preview : list Node) : Prop :=
  forall n, n ∈ preview -> exists file, file ∈ files /\ n = thumbnail (data_url file).

(** The request did not give a 2xx response with a JSON body. *)
Definition request_failed (o : Outcome) : bool :=
  match o with
  | Rejected => true
  | Response status Malformed => true
  | Response status (Parsed _) => negb (response_ok status)
  end.

(** [v] is an array of heap [h]. *)
Definition is_array (h : heap) (v : val) : bool :=
  match v with
  | VRef l => match h !! l with Some (OArr _) => true | _ => false end
  | _ => false
  end.

Definition has_photos_array (h : heap) (data : val) : bool :=
  match get h data "photos" with
  | Ok photos => is_array h photos
  | Throw _ => false
  end.

(** The record a poll response carries, and the state once
    [response.json()] has produced it. *)
Definition json_data (j : Json) (s : State) : val :=
  fst (alloc_json j (heap_of s)).

Definition json_state (j : Json) (s : State) : State :=
  set_heap (snd (alloc_json j (heap_of s))) s.

(** One level of the correspondence between a parsed text and the value
    that stands for it in the heap. *)
Definition reads_as (h : heap) (v : val) (j : Json) : Prop :=
  match j with
  | JNull => v = VNull
  | JBool b => v = VBool b
  | JNum t => v = VNum t
  | JStr s => v = VStr s
  | JArr _ => exists l elems, v = VRef l /\ h !! l = Some (OArr elems)
  | JObj _ => exists l props, v = VRef l /\ h !! l = Some (OObj props)
  end.

(** The body is an object with an array under [photos]. *)
Definition json_has_photos_array (j : Json) : bool :=
  match json_field "photos" j with
  | Some (JArr _) => true
  | _ => false
  end.

(** *** Notions for the further properties *)

Definition res_bind {A B} (m : Res A) (k : A -> Res B) : Res B :=
  match m with
  | Ok a => k a
  | Throw e => Throw e
  end.

Notation "'let?' x ':=' m 'in' k" := (res_bind m (fun x => k))
  (at level 10, x name, m at level 100, k at level 200).

(** A loop over the elements of an array whose turns only read the heap. *)
Fixpoint fold_res {A} (f : A -> val -> Res A) (elems : list val) (a : A) : Res A :=
  match elems with
  | [] => Ok a
  | e :: rest =>
      match f a e with
      | Ok a' => fold_res f rest a'
      | Throw x => Throw x
      end
  end.

(** The card that lines 115 to 121 of the script build for an answer, as a
    function of the heap. *)
Definition answer_card (parse : string -> list Node) (h : heap) (answer : val)
  : Res Node :=
  let? provider := get h answer "provider" in
  let? provider := ToString h provider in
  let? model := get h answer "model" in
  let? model := ToString h model in
  let? content := get h answer "content" in
  let? content := ToString h (if truthy content then content
                              else VStr "No answer yet...") in
  let? status1 := get h answer "status" in
  let? status1 := ToString h status1 in
  let? status2 := get h answer "status" in
  let? status2 := ToString h status2 in
  Ok (Elem "div" [("class", "answer-card")]
        (parse (answer_markup provider model content status1 status2))).

(** One turn of the loop over the answers of a photo. *)
Definition add_answer (parse : string -> list Node) (h : heap)
    (answerGrid : option path) (resultCard : Node) (answer : val) : Res Node :=
  let? answerCard := answer_card parse h answer in
  match answerGrid with
  | Some p => Ok (append_at p answerCard resultCard)
  | None => Throw TypeError
  end.

(** The card of a photo before any answer is appended. *)
Definition base_card (parse : string -> list Node) (filename questionText : string)
  : Node :=
  Elem "div" [("class", "result-card")] (parse (card_markup filename questionText)).

Definition is_result_card (n : Node) : Prop :=
  exists kids, n = Elem "div" [("class", "result-card")] kids.

(** [answerGrid.appendChild] for each of the cards, in order. *)
Definition append_all (answerGrid : option path) (cards : list Node) (n : Node)
  : Node :=
  fold_left (fun n card => append_at (default [] answerGrid) card n) cards n.

(** What [render_photo] appends for a photo, read off its lines: the file
    name and the question text fill the card, the text being the extracted
    one only when the question and the text are truthy, and one card per
    answer is appended at the answer grid when the question has answers. *)
Definition renders_as (parse : string -> list Node) (h : heap) (photo : val)
    (card : Node) : Prop :=
  exists q fv filename questionText acards,
    get h photo "question" = Ok q
    /\ get h photo "filename" = Ok fv
    /\ ToString h fv = Ok filename
    /\ (if truthy q
        then exists e, get h q "extracted_text" = Ok e
                       /\ if truthy e then ToString h e = Ok questionText
                          else questionText = "Extracting text..."
        else questionText = "Extracting text...")
    /\ (if truthy q
        then exists av, get h q "answers" = Ok av
                        /\ if truthy av
                           then exists la answers,
                                  av = VRef la
                                  /\ h !! la = Some (OArr answers)
                                  /\ Forall2 (fun a c => answer_card parse h a = Ok c)
                                       answers acards
                                  /\ (answers <> [] ->
                                      is_Some (querySelector "answer-grid"
                                                 (base_card parse filename questionText)))
                           else acards = []
        else acards = [])
    /\ card = append_all
                (querySelector "answer-grid" (base_card parse filename questionText))
                acards (base_card parse filename questionText).

Definition thumbnails (files : list File) : list Node :=
  map (fun file => thumbnail (data_url file)) files.

(** The files whose read has completed, in the order of completion, along
    events that keep the selection: [pending] lists the reads under way. *)
Fixpoint completed (pending : list File) (es : list Event) : list File :=
  match es with
  | [] => []
  | ReaderLoad k :: es' =>
      match pending !! k with
      | Some file => file :: completed (delete k pending) es'
      | None => completed pending es'
      end
  | ReaderError k :: es' => completed (delete k pending) es'
  | _ :: es' => completed pending es'
  end.

(** Every event but a change of the selection and a failed read. *)
Definition keeps_reads (e : Event) : Prop :=
  match e with
  | Change _ | ReaderError _ => False
  | _ => True
  end.

Definition upload_request (files : list File) : Request :=
  {| req_method := "POST"; req_url := "/api/uploads/";
     req_body := Some (map (fun file => ("uploaded_photos", file)) files) |}.

Definition poll_request (id : string) : Request :=
  {| req_method := "GET"; req_url := "/api/uploads/" ++ id ++ "/";
     req_body := None |}.


Definition upload_without_id : Json := JObj [("detail", JStr "accepted")].

Definition upload_with_odd_id : Json :=
  JObj [("id", JObj [("toString", JStr "abc")])].

Definition answer_pending : Json :=
  JObj [("provider", JStr "openai"); ("model", JStr "gpt-x");
        ("content", JNull); ("status", JStr "pending")].

Definition record_answering : Json :=
  JObj [("status", JStr "processing");
        ("photos", JArr [
           JObj [("filename", JStr "a.png");
                 ("question", JObj [("extracted_text", JStr "");
                                    ("answers", JArr [answer_pending])])]])].

(** The page while [record_answering] is being rendered: its objects are in
    the heap, the record is [VRef 6], its photo [VRef 4], the question
    [VRef 3], the answers [VRef 2] and the answer [VRef 1]. *)
Definition answering : State := json_state record_answering polling.

(** ** Basic facts *)

Lemma bind_ok {A B} (m : M A) (k : A -> M B) s a s' :
  m s = (Ok a, s') -> bind m k s = k a s'.
Proof. unfold bind. by intros ->. Qed.

Lemma bind_throw {A B} (m : M A) (k : A -> M B) s e s' :
  m s = (Throw e, s') -> bind m k s = (Throw e, s').
Proof. unfold bind. by intros ->. Qed.

Lemma val_eqb_eq a b : val_eqb a b = true <-> a = b.
Proof.
  destruct a, b; simpl; split; intros H; try done; try by inversion H.
  - apply Bool.eqb_prop in H. by subst.
  - inversion H. apply Bool.eqb_reflx.
  - apply String.eqb_eq in H. by subst.
  - inversion H. apply String.eqb_refl.
  - apply String.eqb_eq in H. by subst.
  - inversion H. apply String.eqb_refl.
  - apply Nat.eqb_eq in H. by subst.
  - inversion H. apply Nat.eqb_refl.
Qed.

Lemma is_terminal_spec st :
  is_terminal st = true <-> st = VStr "done" \/ st = VStr "error".
Proof.
  unfold is_terminal, strict_eq. rewrite orb_true_iff, !val_eqb_eq. tauto.
Qed.

(** ** Reading back what [response.json()] allocated *)

Lemma Json_induction (P : Json -> Prop) :
  P JNull -> (forall b, P (JBool b)) -> (forall t, P (JNum t)) ->
  (forall t, P (JStr t)) ->
  (forall items, Forall P items -> P (JArr items)) ->
  (forall fields, Forall (fun kv => P (snd kv)) fields -> P (JObj fields)) ->
  forall j, P j.
Proof.
  intros HNull HBool HNum HStr HArr HObj.
  fix IH 1. intros [ |b|t|t|items|fields].
  - exact HNull.
  - apply HBool.
  - apply HNum.
  - apply HStr.
  - apply HArr. induction items as [|j items IHitems]; constructor.
    + apply IH.
    + exact IHitems.
  - apply HObj. induction fields as [|[k j] fields IHfields]; constructor.
    + apply IH.
    + exact IHfields.
Qed.

Lemma fresh_loc_None (h : heap) : h !! fresh_loc h = None.
Proof. apply not_elem_of_dom. unfold fresh_loc. apply is_fresh. Qed.

Lemma insert_fresh_extends (h : heap) o : h ⊆ <[fresh_loc h := o]> h.
Proof. apply insert_subseteq, fresh_loc_None. Qed.

Lemma alloc_items_extends items :
  Forall (fun j => forall h : heap, h ⊆ snd (alloc_json j h)) items ->
  forall h : heap, h ⊆ snd (alloc_items alloc_json items h).
Proof.
  induction 1 as [|j items Hj _ IH]; intros h; simpl; [done|].
  specialize (Hj h). destruct (alloc_json j h) as [v h1]. simpl in Hj.
  specialize (IH h1). destruct (alloc_items alloc_json items h1) as [vs h2].
  simpl in *. by transitivity h1.
Qed.

Lemma alloc_fields_extends fields :
  Forall (fun kv => forall h : heap, h ⊆ snd (alloc_json (snd kv) h)) fields ->
  forall props (h : heap), h ⊆ snd (alloc_fields alloc_json fields props h).
Proof.
  induction 1 as [|[k j] fields Hj _ IH]; intros props h; simpl; [done|].
  simpl in Hj. specialize (Hj h). destruct (alloc_json j h) as [v h1].
  simpl in Hj. specialize (IH (define k v props) h1). by transitivity h1.
Qed.

(** Parsing only adds objects to the heap. *)
Lemma alloc_json_extends j : forall h : heap, h ⊆ snd (alloc_json j h).
Proof.
  induction j as [ | | | |items IH|fields IH] using Json_induction;
    intros h; simpl; try done.
  - pose proof (alloc_items_extends items IH h) as H.
    destruct (alloc_items alloc_json items h) as [vs h1]. simpl in *.
    transitivity h1; [done | apply insert_fresh_extends].
  - pose proof (alloc_fields_extends fields IH [] h) as H.
    destruct (alloc_fields alloc_json fields [] h) as [props h1]. simpl in *.
    transitivity h1; [done | apply insert_fresh_extends].
Qed.

Lemma alloc_json_reads j (h : heap) :
  reads_as (snd (alloc_json j h)) (fst (alloc_json j h)) j.
Proof.
  destruct j as [ | | | |items|fields]; simpl; try done.
  - destruct (alloc_items alloc_json items h) as [vs h1]. simpl.
    eexists _, _. split; [done | apply lookup_insert_eq].
  - destruct (alloc_fields alloc_json fields [] h) as [props h1]. simpl.
    eexists _, _. split; [done | apply lookup_insert_eq].
Qed.

Lemma reads_as_extends (h h' : heap) v j :
  h ⊆ h' -> reads_as h v j -> reads_as h' v j.
Proof.
  intros Hsub. destruct j; simpl; try done.
  - intros (l & elems & -> & Hl). exists l, elems. split; [done|].
    by eapply lookup_weaken.
  - intros (l & props & -> & Hl). exists l, props. split; [done|].
    by eapply lookup_weaken.
Qed.

Lemma own_define k k' v props :
  own k (define k' v props) = if String.eqb k k' then Some v else own k props.
Proof.
  induction props as [|[k0 v0] props IH]; simpl.
  - by destruct (String.eqb k k').
  - destruct (String.eqb k' k0) eqn:Hk'; simpl.
    + apply String.eqb_eq in Hk' as ->. by destruct (String.eqb k k0).
    + destruct (String.eqb k k0) eqn:Hk; [|exact IH].
      apply String.eqb_eq in Hk as ->.
      by rewrite String.eqb_sym, Hk'.
Qed.

(** Each key of the object reads as the last member the text has for it. *)
Lemma alloc_fields_reads k fields : forall props (h : heap) found,
  match found with
  | Some j => exists v, own k props = Some v /\ reads_as h v j
  | None => own k props = None
  end ->
  let '(props', h') := alloc_fields alloc_json fields props h in
  match last_member k fields found with
  | Some j => exists v, own k props' = Some v /\ reads_as h' v j
  | None => own k props' = None
  end.
Proof.
  induction fields as [|[k' j] fields IH]; intros props h found Hfound; simpl;
    [done|].
  pose proof (alloc_json_extends j h) as Hext.
  pose proof (alloc_json_reads j h) as Hreads.
  destruct (alloc_json j h) as [v h1]. simpl in Hext, Hreads.
  apply IH. rewrite own_define.
  destruct (String.eqb k k'); [eauto|].
  destruct found as [j0|]; [|done].
  destruct Hfound as (v0 & Hv0 & Hr). eauto using reads_as_extends.
Qed.

(** A property of the parsed body reads as the member of the text. *)
Lemma json_data_field k j s :
  match j with
  | JNull => get (heap_of (json_state j s)) (json_data j s) k = Throw TypeError
  | JObj _ =>
      match json_field k j with
      | Some j' => exists v, get (heap_of (json_state j s)) (json_data j s) k = Ok v
                             /\ reads_as (heap_of (json_state j s)) v j'
      | None => get (heap_of (json_state j s)) (json_data j s) k = Ok VUndef
      end
  | _ => get (heap_of (json_state j s)) (json_data j s) k = Ok VUndef
  end.
Proof.
  unfold json_state, json_data.
  destruct j as [ | | | |items|fields]; simpl; try done.
  - destruct (alloc_items alloc_json items (heap_of s)) as [vs h1]. simpl.
    by rewrite lookup_insert_eq.
  - pose proof (alloc_fields_reads k fields [] (heap_of s) None eq_refl) as H.
    destruct (alloc_fields alloc_json fields [] (heap_of s)) as [props h1].
    simpl. rewrite lookup_insert_eq.
    destruct (last_member k fields None) as [j'|].
    + destruct H as (v & -> & Hr). exists v. split; [done|].
      eapply reads_as_extends; [apply insert_fresh_extends | done].
    + by rewrite H.
Qed.

Lemma reads_as_is_array h v j :
  reads_as h v j -> is_array h v = match j with JArr _ => true | _ => false end.
Proof.
  destruct j; simpl; try by intros ->.
  - intros (l & elems & -> & Hl). simpl. by rewrite Hl.
  - intros (l & props & -> & Hl). simpl. by rewrite Hl.
Qed.

Lemma reads_as_string h v j t :
  reads_as h v j -> (v = VStr t <-> j = JStr t).
Proof.
  destruct j; simpl; try (intros ->; split; intros; congruence).
  - intros (l & elems & -> & _). split; intros; congruence.
  - intros (l & props & -> & _). split; intros; congruence.
Qed.

(** The test the render step makes on [data.photos], on the text. *)
Lemma has_photos_array_json j s :
  has_photos_array (heap_of (json_state j s)) (json_data j s)
  = json_has_photos_array j.
Proof.
  unfold has_photos_array, json_has_photos_array.
  pose proof (json_data_field "photos" j s) as H.
  destruct j as [ | | | |items|fields]; try (by rewrite H).
  destruct (json_field "photos" (JObj fields)) as [j'|].
  - destruct H as (v & -> & Hr). rewrite (reads_as_is_array _ _ _ Hr).
    by destruct j'.
  - by rewrite H.
Qed.

(** The test of the tick on [data.status], on the text. *)
Lemma status_json j s t :
  get (heap_of (json_state j s)) (json_data j s) "status" = Ok (VStr t)
  <-> json_field "status" j = Some (JStr t).
Proof.
  pose proof (json_data_field "status" j s) as H.
  destruct j as [ | | | |items|fields]; try (rewrite H; by split).
  destruct (json_field "status" (JObj fields)) as [j'|].
  - destruct H as (v & -> & Hr). pose proof (reads_as_string _ _ _ t Hr) as Hs.
    split; intros Heq.
    + f_equal. apply Hs. congruence.
    + f_equal. apply Hs. congruence.
  - rewrite H. by split.
Qed.

(** ** What the render step does to the page *)

Lemma set_resultsSection_same s : set_resultsSection (resultsSection s) s = s.
Proof. destruct s; reflexivity. Qed.




Lemma appends_fun {A} (m : M A) s r1 out1 r2 out2 :
  appends m s r1 out1 -> appends m s r2 out2 -> r1 = r2 /\ out1 = out2.
Proof.
  intros H1 H2. specialize (H1 []). specialize (H2 []).
  rewrite H1 in H2. simpl in H2. inversion H2; subst. auto.
Qed.

Lemma appends_ret {A} (a : A) s : appends (ret a) s (Ok a) [].
Proof. intros X. unfold ret. by rewrite app_nil_r. Qed.

Lemma appends_throw {A} e s : appends (@throw A e) s (Throw e) [].
Proof. intros X. unfold throw. by rewrite app_nil_r. Qed.

Lemma appends_read {A} (f : heap -> Res A) s :
  appends (read f) s (f (heap_of s)) [].
Proof. intros X. unfold read. simpl. by rewrite app_nil_r. Qed.

Lemma appends_bind_ok {A B} (m : M A) (k : A -> M B) s a out1 r out2 :
  appends m s (Ok a) out1 -> appends (k a) s r out2 ->
  appends (bind m k) s r (out1 ++ out2).
Proof.
  intros Hm Hk X. unfold bind. rewrite (Hm X), (Hk (X ++ out1)).
  by rewrite app_assoc.
Qed.

Lemma appends_bind_throw {A B} (m : M A) (k : A -> M B) s e out :
  appends m s (Throw e) out -> appends (bind m k) s (Throw e) out.
Proof. intros Hm X. unfold bind. by rewrite (Hm X). Qed.

Lemma appends_appendChild n s : appends (results_appendChild n) s (Ok tt) [n].
Proof. intros X. reflexivity. Qed.

Lemma appending_ret {A} (a : A) : appending (ret a).
Proof. intros s. eexists _, _. apply appends_ret. Qed.

Lemma appending_throw {A} e : appending (@throw A e).
Proof. intros s. eexists _, _. apply appends_throw. Qed.

Lemma appending_read {A} (f : heap -> Res A) : appending (read f).
Proof. intros s. eexists _, _. apply appends_read. Qed.

Lemma appending_appendChild n : appending (results_appendChild n).
Proof. intros s. eexists _, _. apply appends_appendChild. Qed.

Lemma appending_bind {A B} (m : M A) (k : A -> M B) :
  appending m -> (forall a, appending (k a)) -> appending (bind m k).
Proof.
  intros Hm Hk s. destruct (Hm s) as ([a|e] & out1 & H1).
  - destruct (Hk a s) as (r & out2 & H2).
    eexists _, _. eapply appends_bind_ok; eauto.
  - eexists _, _. eapply appends_bind_throw; eauto.
Qed.

Lemma appending_if {A} (c : bool) (m1 m2 : M A) :
  appending m1 -> appending m2 -> appending (if c then m1 else m2).
Proof. by destruct c. Qed.

Lemma appending_visit {A} l k (cb : A -> val -> M A) a :
  (forall a e, appending (cb a e)) -> appending (visit l k cb a).
Proof.
  intros Hcb s. unfold visit, appends. simpl.
  destruct (heap_of s !! l) as [[elems|props]|];
    try (exists (Ok a), []; intros X; by rewrite app_nil_r).
  destruct (elems !! k) as [e|].
  - destruct (Hcb a e s) as (r & out & H). by exists r, out.
  - exists (Ok a), []. intros X. by rewrite app_nil_r.
Qed.

Lemma appending_forEach_from {A} (cb : A -> val -> M A) l :
  (forall a e, appending (cb a e)) ->
  forall n k a, appending (forEach_from n k l cb a).
Proof.
  intros Hcb. induction n as [|n IH]; intros k a; simpl.
  - apply appending_ret.
  - apply appending_bind; [by apply appending_visit | intros a'; apply IH].
Qed.

Lemma appending_forEach {A} v (cb : A -> val -> M A) a :
  (forall a e, appending (cb a e)) -> appending (forEach v cb a).
Proof.
  intros Hcb s. unfold forEach, appends. simpl.
  destruct v as [| | | | |l];
    try (exists (Throw TypeError), []; intros X; by rewrite app_nil_r).
  destruct (heap_of s !! l) as [[elems|props]|];
    try (exists (Throw TypeError), []; intros X; by rewrite app_nil_r).
  destruct (appending_forEach_from cb l Hcb (length elems) 0 a s) as (r & out & H).
  by exists r, out.
Qed.

Ltac appending :=
  repeat first
    [ apply appending_ret | apply appending_throw | apply appending_read
    | apply appending_appendChild
    | apply appending_bind; [|intros ?]
    | apply appending_if
    | apply appending_forEach; intros ? ?
    | progress cbv zeta
    | match goal with
      | |- appending (match ?x with _ => _ end) => destruct x
      end ].



Lemma appending_render_cards parse data :
  appending (let! photos := get_prop data "photos" in
             forEach photos (render_photo parse) tt).
Proof. unfold get_prop. appending. Qed.

(** The render step either throws before it touches the page, or replaces
    the results region by content that depends on the heap and the record
    only; nothing else of the state changes. *)
Lemma renderResults_effect parse data s :
  exists r,
    (exists e, r = Throw e /\
       forall X, renderResults parse data (set_resultsSection X s)
                 = (r, set_resultsSection X s)) \/
    (exists content,
       forall X, renderResults parse data (set_resultsSection X s)
                 = (r, set_resultsSection content s)).
Proof.
  unfold renderResults.
  set (cards := bind (get_prop data "photos") _).
  assert (Hc : appending cards) by apply appending_render_cards.
  unfold bind, get_prop, to_string, read, results_innerHTML, modify. simpl.
  destruct (get (heap_of s) data "status") as [st|e];
    [| exists (Throw e); left; eauto].
  destruct (ToString (heap_of s) st) as [t|e];
    [| exists (Throw e); left; eauto].
  destruct (Hc s) as (r & out & H).
  exists r. right. eexists. intros X. exact (H (parse (header_markup t t))).
Qed.

Lemma renderResults_frame parse data s :
  snd (renderResults parse data s)
  = set_resultsSection (resultsSection (snd (renderResults parse data s))) s.
Proof.
  destruct (renderResults_effect parse data s) as (r & [(e & _ & H)|(c & H)]);
    specialize (H (resultsSection s));
    rewrite set_resultsSection_same in H; rewrite H; simpl;
    by rewrite ?set_resultsSection_same.
Qed.

Lemma renderResults_ok_status parse data s :
  fst (renderResults parse data s) = Ok tt ->
  exists st, get (heap_of s) data "status" = Ok st.
Proof.
  unfold renderResults, bind at 1, get_prop at 1, read at 1.
  destruct (get (heap_of s) data "status") as [st|e]; [eauto | done].
Qed.

Lemma sequence_throw {A B} (f : A -> Res B) l e :
  sequence (map f l) = Throw e -> exists x, In x l /\ f x = Throw e.
Proof.
  induction l as [|x l IH]; simpl; [done|].
  destruct (f x) as [b|e'] eqn:Hx.
  - destruct (sequence (map f l)) as [bs|e'']; [done|].
    intros [= ->]. destruct IH as (y & Hy & Hfy); eauto.
  - intros [= ->]. eauto.
Qed.

(** A conversion to string fails with a TypeError only. *)
Lemma ToString_upto_throws n h v e :
  ToString_upto n h v = Throw e -> e = TypeError.
Proof.
  revert v e. induction n as [|n IH]; intros v e;
    destruct v as [| |[|]| | |l]; simpl; try done.
  destruct (h !! l) as [[elems|props]|]; [| |by intros [= <-]].
  - destruct (sequence _) as [parts|e'] eqn:Hseq; [done|].
    intros [= ->]. apply sequence_throw in Hseq as (x & _ & Hx).
    destruct x; try done; eapply IH; eauto.
  - destruct (own "toString" props); [by intros [= <-] | done].
Qed.

Lemma get_throws h v k e : get h v k = Throw e -> e = TypeError.
Proof.
  destruct v as [| | | | |l]; simpl; try done; try by intros [= <-].
  destruct (h !! l) as [[?|?]|]; try done. by intros [= <-].
Qed.

(** Without an array under [photos] the render step throws. *)
Lemma renderResults_without_photos parse data s :
  has_photos_array (heap_of s) data = false ->
  fst (renderResults parse data s) = Throw TypeError.
Proof.
  unfold has_photos_array, is_array. intros Hno.
  unfold renderResults, bind, get_prop, to_string, read, results_innerHTML,
    modify, forEach, ToString. simpl.
  destruct (get (heap_of s) data "status") as [st|e1] eqn:H1;
    [|simpl; f_equal; by eapply get_throws].
  destruct (ToString_upto _ (heap_of s) st) as [t|e2] eqn:H2;
    [|simpl; f_equal; by eapply ToString_upto_throws].
  simpl.
  destruct (get (heap_of s) data "photos") as [photos|e3] eqn:H3;
    [|simpl; f_equal; by eapply get_throws].
  destruct photos as [| | | | |l]; try done. simpl.
  by destruct (heap_of s !! l) as [[elems|props]|].
Qed.

(** *** One card per photo *)


Lemma silent_ret {A} (a : A) : silent (ret a).
Proof. intros s. eexists. apply appends_ret. Qed.

Lemma silent_throw {A} e : silent (@throw A e).
Proof. intros s. eexists. apply appends_throw. Qed.

Lemma silent_read {A} (f : heap -> Res A) : silent (read f).
Proof. intros s. eexists. apply appends_read. Qed.

Lemma silent_bind {A B} (m : M A) (k : A -> M B) :
  silent m -> (forall a, silent (k a)) -> silent (bind m k).
Proof.
  intros Hm Hk s. destruct (Hm s) as ([a|e] & H1).
  - destruct (Hk a s) as (r & H2). exists r.
    change (@nil Node) with (@nil Node ++ []). eapply appends_bind_ok; eauto.
  - exists (Throw e). by apply appends_bind_throw.
Qed.

Lemma silent_if {A} (c : bool) (m1 m2 : M A) :
  silent m1 -> silent m2 -> silent (if c then m1 else m2).
Proof. by destruct c. Qed.

Lemma silent_visit {A} l k (cb : A -> val -> M A) a :
  (forall a e, silent (cb a e)) -> silent (visit l k cb a).
Proof.
  intros Hcb s. unfold visit, appends. simpl.
  destruct (heap_of s !! l) as [[elems|props]|];
    try (exists (Ok a); intros X; by rewrite app_nil_r).
  destruct (elems !! k) as [e|].
  - destruct (Hcb a e s) as (r & H). by exists r.
  - exists (Ok a). intros X. by rewrite app_nil_r.
Qed.

Lemma silent_forEach_from {A} (cb : A -> val -> M A) l :
  (forall a e, silent (cb a e)) ->
  forall n k a, silent (forEach_from n k l cb a).
Proof.
  intros Hcb. induction n as [|n IH]; intros k a; simpl.
  - apply silent_ret.
  - apply silent_bind; [by apply silent_visit | intros a'; apply IH].
Qed.

Lemma silent_forEach {A} v (cb : A -> val -> M A) a :
  (forall a e, silent (cb a e)) -> silent (forEach v cb a).
Proof.
  intros Hcb s. unfold forEach, appends. simpl.
  destruct v as [| | | | |l];
    try (exists (Throw TypeError); intros X; by rewrite app_nil_r).
  destruct (heap_of s !! l) as [[elems|props]|];
    try (exists (Throw TypeError); intros X; by rewrite app_nil_r).
  destruct (silent_forEach_from cb l Hcb (length elems) 0 a s) as (r & H).
  by exists r.
Qed.

Ltac silent :=
  repeat first
    [ apply silent_ret | apply silent_throw | apply silent_read
    | apply silent_bind; [|intros ?]
    | apply silent_if
    | apply silent_forEach; intros ? ?
    | progress cbv zeta
    | match goal with
      | |- silent (match ?x with _ => _ end) => destruct x
      end ].

Lemma silent_render_answer parse grid card answer :
  silent (render_answer parse grid card answer).
Proof. unfold render_answer, js_or, get_prop, to_string. silent. Qed.

Lemma one_card_bind {A B} (m : M A) (k : A -> M B) :
  silent m -> (forall a, one_card (k a)) -> one_card (bind m k).
Proof.
  intros Hm Hk s. destruct (Hm s) as ([a|e] & H1).
  - destruct (Hk a s) as (r & out & H2 & Hlen). exists r, out. split; [|done].
    change out with ([] ++ out). eapply appends_bind_ok; eauto.
  - exists (Throw e), []. split; [by apply appends_bind_throw | done].
Qed.

Lemma one_card_appendChild n : one_card (results_appendChild n).
Proof. intros s. exists (Ok tt), [n]. split; [apply appends_appendChild | done]. Qed.

Lemma one_card_render_photo parse a photo :
  one_card (render_photo parse a photo).
Proof.
  unfold render_photo, js_and, get_prop, to_string.
  repeat first
    [ apply one_card_appendChild
    | apply one_card_bind; [silent; apply silent_render_answer | intros ?]
    | progress cbv zeta ].
Qed.

Lemma visit_some {A} l k (cb : A -> val -> M A) a s elems e r out :
  heap_of s !! l = Some (OArr elems) -> elems !! k = Some e ->
  appends (cb a e) s r out -> appends (visit l k cb a) s r out.
Proof. intros Hl Hk H X. unfold visit. simpl. rewrite Hl, Hk. apply H. Qed.


Lemma ToString_VStr h t : ToString h (VStr t) = Ok t.
Proof. unfold ToString. by destruct (size h). Qed.


(** A rendering that returns has written the header and then run the loop
    over the photos. *)
Lemma renderResults_ok parse data s :
  fst (renderResults parse data s) = Ok tt ->
  exists st t out,
    get (heap_of s) data "status" = Ok st
    /\ ToString (heap_of s) st = Ok t
    /\ appends (render_cards parse data) s (Ok tt) out
    /\ resultsSection (snd (renderResults parse data s))
       = parse (header_markup t t) ++ out.
Proof.
  destruct (appending_render_cards parse data s) as (r & out & Hc).
  fold (render_cards parse data) in Hc.
  unfold renderResults. fold (render_cards parse data).
  destruct (get (heap_of s) data "status") as [st|e] eqn:Hst.
  2: { erewrite bind_throw; [done | unfold get_prop, read; by rewrite Hst]. }
  erewrite bind_ok; [|unfold get_prop, read; by rewrite Hst].
  destruct (ToString (heap_of s) st) as [t|e] eqn:Ht.
  2: { erewrite bind_throw; [done | unfold to_string, read; by rewrite Ht]. }
  erewrite bind_ok; [|unfold to_string, read; by rewrite Ht].
  erewrite bind_ok; [|unfold get_prop, read; by rewrite Hst].
  erewrite bind_ok; [|unfold to_string, read; by rewrite Ht].
  erewrite bind_ok; [|reflexivity].
  pose proof (Hc (parse (header_markup t t))) as Hrun.
  rewrite Hrun. simpl. intros ->.
  exists st, t, out. done.
Qed.

(** ** Rendering *)

(** C6.  Rendering a record a second time gives the same outcome and leaves
    the page exactly as the first rendering left it; in particular the
    results region holds the same content. *)
Theorem renderResults_idempotent parse data s :
  let once := renderResults parse data s in
  let twice := renderResults parse data (snd once) in
  twice = once
  /\ resultsSection (snd twice) = resultsSection (snd once).
Proof.
  intros once twice.
  assert (H : twice = once); [|by rewrite H].
  subst once twice.
  destruct (renderResults_effect parse data s) as (r & [(e & _ & H)|(c & H)]).
  - pose proof (H (resultsSection s)) as H1.
    rewrite set_resultsSection_same in H1. rewrite H1. simpl. exact H1.
  - pose proof (H (resultsSection s)) as H1.
    rewrite set_resultsSection_same in H1. rewrite H1. simpl. apply H.
Qed.

(** C8.  The render step leaves every object of the heap as it was, so the
    record it was given (status, photos, questions, answers) reads after the
    call exactly as before; of the whole state only the results region
    changes. *)
Theorem renderResults_keeps_record parse data s :
  let s' := snd (renderResults parse data s) in
  heap_of s' = heap_of s
  /\ (forall v k, get (heap_of s') v k = get (heap_of s) v k)
  /\ (forall v, ToString (heap_of s') v = ToString (heap_of s) v)
  /\ s' = set_resultsSection (resultsSection s') s.
Proof.
  intros s'. subst s'.
  pose proof (renderResults_frame parse data s) as H.
  assert (Hh : heap_of (snd (renderResults parse data s)) = heap_of s)
    by (by rewrite H).
  split; [exact Hh|]. split; [by intros; rewrite Hh|].
  split; [by intros; rewrite Hh | exact H].
Qed.



(** ** Uploading *)

(** C2.  A click while no file is selected only shows the validation
    message: no request is issued, the button stays as it was (enabled,
    since a disabled button receives no click), and nothing else of the
    controller state changes. *)
Theorem click_with_empty_selection parse s :
  selectedFiles s = [] ->
  uploadButton_click parse s = set_alerts (alerts s ++ [select_images_message]) s
  /\ requests (uploadButton_click parse s) = requests s
  /\ alerts (uploadButton_click parse s) = alerts s ++ [select_images_message]
  /\ (button_disabled s = false ->
      button_disabled (step parse s Click) = false
      /\ requests (step parse s Click) = requests s).
Proof.
  intros Hsel.
  assert (H : uploadButton_click parse s
              = set_alerts (alerts s ++ [select_images_message]) s).
  { unfold uploadButton_click, detached. by rewrite Hsel. }
  rewrite H. do 3 (split; [reflexivity|]).
  intros Hen. simpl. rewrite Hen, H. by split.
Qed.

Lemma click_with_empty_selection_witness :
  selectedFiles initial = []
  /\ requests (uploadButton_click Html.parse_html initial) = []
  /\ alerts (uploadButton_click Html.parse_html initial) = [select_images_message]
  /\ button_disabled (step Html.parse_html initial Click) = false.
Proof.
  split; [reflexivity|].
  destruct (click_with_empty_selection Html.parse_html initial eq_refl)
    as (_ & Hreq & Hal & Hbtn).
  destruct (Hbtn eq_refl) as (Hd & _).
  split; [exact Hreq|]. split; [exact Hal | exact Hd].
Defined.

(** C3.  A click with a non-empty selection disables the button and issues
    exactly one request, a POST to /api/uploads/ whose form data has one
    [uploaded_photos] entry per selected file, in selection order. *)
Theorem click_with_selection parse s :
  selectedFiles s <> [] ->
  let s' := uploadButton_click parse s in
  button_disabled s' = true
  /\ exists parts,
       requests s' = requests s ++
         [{| req_method := "POST"; req_url := "/api/uploads/";
             req_body := Some parts |}]
       /\ length parts = length (selectedFiles s)
       /\ forall i, parts !! i
                    = (fun file => ("uploaded_photos", file)) <$> selectedFiles s !! i.
Proof.
  intros Hsel s'. subst s'. unfold uploadButton_click, detached.
  destruct (selectedFiles s) as [|f fs] eqn:Hfs; [done|]. simpl.
  split; [reflexivity|].
  exists (formData (f :: fs)). split; [reflexivity|]. split.
  - unfold formData. by rewrite length_map.
  - intros i. unfold formData. by rewrite list_lookup_fmap.
Qed.

Lemma click_with_selection_witness :
  let s := fileInput_change Html.parse_html [photo_a; photo_b] initial in
  let s' := uploadButton_click Html.parse_html s in
  selectedFiles s <> []
  /\ button_disabled s' = true
  /\ requests s' =
     [{| req_method := "POST"; req_url := "/api/uploads/";
         req_body := Some [("uploaded_photos", photo_a);
                           ("uploaded_photos", photo_b)] |}].
Proof.
  split; [discriminate|].
  destruct (click_with_selection Html.parse_html
              (fileInput_change Html.parse_html [photo_a; photo_b] initial))
    as (Hdis & parts & Hreq & _ & _); [discriminate|].
  split; [exact Hdis | reflexivity].
Defined.

(** C5.  When the upload request fails (no response, a status outside
    200..299, or a body that is not JSON), the handler shows the error
    message, re-enables the button, and neither starts a timer nor issues
    another request. *)
Theorem upload_failure parse s o :
  request_failed o = true ->
  let s' := upload_settled parse o s in
  resultsSection s' = parse upload_failed_markup
  /\ button_disabled s' = false
  /\ button_text s' = "Upload and Process"
  /\ intervals s' = intervals s
  /\ next_interval s' = next_interval s
  /\ requests s' = requests s
  /\ exists error, console s' = console s ++ [("Upload failed:", error)].
Proof.
  intros Hfail s'. subst s'.
  unfold upload_settled, detached, try_catch, bind, checked_response.
  destruct o as [|status [|j]]; simpl in Hfail |- *.
  - repeat split; eauto.
  - destruct (response_ok status); simpl; repeat split; eauto.
  - rewrite Hfail. simpl. repeat split; eauto.
Qed.

Lemma upload_failure_witness :
  let s' := upload_settled Html.parse_html (Response 500 Malformed) initial in
  request_failed (Response 500 Malformed) = true
  /\ resultsSection s' = Html.parse_html upload_failed_markup
  /\ button_disabled s' = false
  /\ intervals s' = intervals initial
  /\ requests s' = requests initial.
Proof.
  split; [reflexivity|].
  destruct (upload_failure Html.parse_html initial (Response 500 Malformed) eq_refl)
    as (Hres & Hbtn & _ & Hint & _ & Hreq & _).
  repeat split; assumption.
Defined.

(** ** Polling *)

Lemma response_json_parsed j s :
  response_json (Parsed j) s = (Ok (json_data j s), json_state j s).
Proof.
  unfold response_json, json_data, json_state.
  by destruct (alloc_json j (heap_of s)).
Qed.

Lemma poll_settled_rendered parse s i code j s2 st :
  response_ok code = true ->
  renderResults parse (json_data j s) (json_state j s) = (Ok tt, s2) ->
  get (heap_of (json_state j s)) (json_data j s) "status" = Ok st ->
  poll_settled parse i (Response code (Parsed j)) s
  = if is_terminal st
    then set_button_text "Upload and Process"
           (set_button_disabled false (set_intervals (delete i (intervals s2)) s2))
    else s2.
Proof.
  intros Hok Hrender Hst.
  assert (Hheap : heap_of s2 = heap_of (json_state j s)).
  { pose proof (renderResults_frame parse (json_data j s) (json_state j s)) as H.
    rewrite Hrender in H. simpl in H. by rewrite H. }
  unfold poll_settled, detached, try_catch.
  erewrite bind_ok; last by (unfold checked_response; rewrite Hok).
  erewrite bind_ok; last apply response_json_parsed.
  erewrite bind_ok; last exact Hrender.
  unfold js_or, bind, get_prop, read, when. rewrite Hheap, Hst.
  unfold is_terminal. simpl.
  destruct (strict_eq st (VStr "done")); simpl; [reflexivity|].
  rewrite Hheap, Hst. simpl.
  destruct (strict_eq st (VStr "error")); reflexivity.
Qed.

Lemma poll_settled_render_throws parse s i code j s2 e :
  response_ok code = true ->
  renderResults parse (json_data j s) (json_state j s) = (Throw e, s2) ->
  poll_settled parse i (Response code (Parsed j)) s
  = snd (poll_failed parse i e s2).
Proof.
  intros Hok Hrender.
  unfold poll_settled, detached, try_catch.
  erewrite bind_ok; last by (unfold checked_response; rewrite Hok).
  erewrite bind_ok; last apply response_json_parsed.
  erewrite bind_throw; last exact Hrender.
  reflexivity.
Qed.

(** C1, as the code has it.  After a 2xx poll response whose body parsed,
    the timer of the tick is cancelled exactly when the status of the record
    is the string "done" or "error" or the render step threw; in both cases
    the button is enabled again.  When the record was rendered the results
    region holds its rendering, and on a status that is not terminal the
    tick does nothing after the rendering: timers and button are as before,
    so an active timer stays active and keeps ticking.  When the render step
    threw, the results region holds the error message instead. *)
Theorem poll_success parse s i code j :
  response_ok code = true ->
  let outcome := fst (renderResults parse (json_data j s) (json_state j s)) in
  let rendered := snd (renderResults parse (json_data j s) (json_state j s)) in
  let s' := poll_settled parse i (Response code (Parsed j)) s in
  let terminal := json_field "status" j = Some (JStr "done")
                  \/ json_field "status" j = Some (JStr "error") in
  (terminal ->
   intervals s' = delete i (intervals s)
   /\ button_disabled s' = false
   /\ button_text s' = "Upload and Process")
  /\ (outcome = Ok tt -> resultsSection s' = resultsSection rendered)
  /\ (outcome = Ok tt -> ~ terminal ->
      s' = rendered
      /\ intervals s' = intervals s
      /\ button_disabled s' = button_disabled s
      /\ button_text s' = button_text s)
  /\ (forall e, outcome = Throw e ->
      intervals s' = delete i (intervals s)
      /\ resultsSection s' = parse poll_failed_markup
      /\ button_disabled s' = false
      /\ button_text s' = "Upload and Process")
  /\ (is_Some (intervals s !! i) ->
      (intervals s' !! i = None <-> terminal \/ exists e, outcome = Throw e)).
Proof.
  intros Hok outcome rendered s' terminal. subst outcome rendered.
  pose proof (renderResults_frame parse (json_data j s) (json_state j s)) as Hframe.
  pose proof (renderResults_ok_status parse (json_data j s) (json_state j s)) as Hstatus.
  destruct (renderResults parse (json_data j s) (json_state j s))
    as [[[]|e] s2] eqn:Hrun;
    simpl in Hframe |- *.
  - destruct (Hstatus eq_refl) as (st & Hst).
    assert (Hs' : s' = if is_terminal st
                       then set_button_text "Upload and Process"
                              (set_button_disabled false
                                 (set_intervals (delete i (intervals s2)) s2))
                       else s2).
    { subst s'. eapply poll_settled_rendered; eauto. }
    assert (Hterm : terminal <-> is_terminal st = true).
    { subst terminal. rewrite is_terminal_spec.
      rewrite <- (status_json j s "done"), <- (status_json j s "error"), Hst.
      split; (intros [H|H]; [left|right]; congruence). }
    assert (Hint : intervals s2 = intervals s) by (by rewrite Hframe).
    assert (Hdis : button_disabled s2 = button_disabled s) by (by rewrite Hframe).
    assert (Htxt : button_text s2 = button_text s) by (by rewrite Hframe).
    rewrite Hs'. destruct (is_terminal st); simpl.
    + assert (Ht : terminal) by (by apply Hterm).
      split; [by rewrite Hint|]. split; [done|].
      split; [by intros _ Hn|]. split; [by intros e0 He0|].
      intros _. rewrite Hint, lookup_delete_eq. split; [by left | done].
    + assert (Ht : ~ terminal) by (by rewrite Hterm).
      split; [by intros H|]. split; [done|].
      split; [done|]. split; [by intros e0 He0|].
      intros [u Hu]. rewrite Hint, Hu. split; [done|].
      intros [H|(e0 & He0)]; done.
  - assert (Hs' : s' = snd (poll_failed parse i e s2)).
    { subst s'. eapply poll_settled_render_throws; eauto. }
    rewrite Hs'. simpl. rewrite Hframe. simpl.
    split; [done|]. split; [by intros H|]. split; [by intros H|].
    split; [done|].
    intros _. rewrite lookup_delete_eq. split; [|done].
    intros _. right. by exists e.
Qed.

Lemma poll_success_witness :
  let s' := poll_settled Html.parse_html 0 (Response 200 (Parsed record_done)) polling in
  response_ok 200 = true
  /\ fst (renderResults Html.parse_html (json_data record_done polling)
            (json_state record_done polling)) = Ok tt
  /\ intervals polling !! 0 = Some (VStr "abc")
  /\ intervals s' !! 0 = None
  /\ button_disabled s' = false
  /\ button_text s' = "Upload and Process".
Proof.
  assert (Hok : response_ok 200 = true) by reflexivity.
  assert (Hrender : fst (renderResults Html.parse_html (json_data record_done polling)
                           (json_state record_done polling)) = Ok tt)
    by (vm_compute; reflexivity).
  split; [exact Hok|]. split; [exact Hrender|].
  split; [vm_compute; reflexivity|].
  destruct (poll_success Html.parse_html polling 0 200 record_done Hok)
    as (Hterm & _).
  destruct Hterm as (Hint & Hdis & Htxt); [left; reflexivity|].
  split; [rewrite Hint; apply lookup_delete_eq|]. split; [exact Hdis | exact Htxt].
Defined.

(** C1 as stated fails: a 2xx response whose body parses but has no
    [photos] makes the render step throw, and the tick then cancels the
    timer and enables the button although the status, "processing", is not
    terminal. *)
Lemma poll_unrendered_record_cancels_timer :
  let s' := poll_settled Html.parse_html 0
              (Response 200 (Parsed record_without_photos)) polling in
  response_ok 200 = true
  /\ json_field "status" record_without_photos = Some (JStr "processing")
  /\ intervals polling !! 0 = Some (VStr "abc")
  /\ button_disabled polling = true
  /\ intervals s' !! 0 = None
  /\ button_disabled s' = false
  /\ ~ (forall parse s i code j,
          response_ok code = true ->
          is_Some (intervals s !! i) ->
          (intervals (poll_settled parse i (Response code (Parsed j)) s) !! i = None
           <-> json_field "status" j = Some (JStr "done")
               \/ json_field "status" j = Some (JStr "error"))).
Proof.
  assert (Hi : intervals polling !! 0 = Some (VStr "abc"))
    by (vm_compute; reflexivity).
  assert (Hi' : intervals (poll_settled Html.parse_html 0
                             (Response 200 (Parsed record_without_photos)) polling)
                  !! 0 = None) by (vm_compute; reflexivity).
  split; [reflexivity|]. split; [reflexivity|]. split; [exact Hi|].
  split; [vm_compute; reflexivity|]. split; [exact Hi'|].
  split; [vm_compute; reflexivity|].
  intros H.
  destruct (H Html.parse_html polling 0 200 record_without_photos eq_refl
              ltac:(by eexists)) as [Hcancel _].
  destruct (Hcancel Hi') as [Hdone|Herror]; discriminate.
Qed.

(** C4.  When the request of a tick fails (no response, a status outside
    200..299, or a body that is not JSON), the handler cancels the timer,
    replaces the results region by the error message and re-enables the
    button; it issues no request and starts no timer, and the cancelled timer
    does not fire again. *)
Theorem poll_failure parse s i o :
  request_failed o = true ->
  let s' := poll_settled parse i o s in
  intervals s' = delete i (intervals s)
  /\ resultsSection s' = parse poll_failed_markup
  /\ button_disabled s' = false
  /\ button_text s' = "Upload and Process"
  /\ requests s' = requests s
  /\ next_interval s' = next_interval s
  /\ interval_tick parse i s' = s'
  /\ exists error, console s' = console s ++ [("Polling failed:", error)].
Proof.
  intros Hfail s'.
  assert (H : exists error,
             s' = snd (poll_failed parse i error s)).
  { subst s'. unfold poll_settled, detached, try_catch, bind, checked_response.
    destruct o as [|status [|j]]; simpl in Hfail |- *.
    - eauto.
    - destruct (response_ok status); simpl; eauto.
    - rewrite Hfail. simpl. eauto. }
  destruct H as (error & ->). simpl.
  repeat split; eauto.
  unfold interval_tick. simpl. by rewrite lookup_delete_eq.
Qed.

Lemma poll_failure_witness :
  let s0 := snd (setInterval (VStr "abc") initial) in
  let s' := poll_settled Html.parse_html 0 Rejected s0 in
  request_failed Rejected = true
  /\ intervals s0 !! 0 = Some (VStr "abc")
  /\ intervals s' !! 0 = None
  /\ resultsSection s' = Html.parse_html poll_failed_markup
  /\ button_disabled s' = false
  /\ requests s' = requests s0.
Proof.
  split; [reflexivity|]. split; [reflexivity|].
  destruct (poll_failure Html.parse_html (snd (setInterval (VStr "abc") initial))
              0 Rejected eq_refl)
    as (Hint & Hres & Hbtn & _ & Hreq & _).
  split; [rewrite Hint; apply lookup_delete_eq|].
  repeat split; assumption.
Defined.

(** C9.  A 2xx poll response whose body parses but is not an object with
    an array under [photos] makes the render step throw; the tick then ends
    as it does on a transport failure: timer cancelled, error message in the
    results region, button enabled again. *)
Theorem poll_record_without_photos parse s i code j :
  response_ok code = true ->
  json_has_photos_array j = false ->
  let s' := poll_settled parse i (Response code (Parsed j)) s in
  let failed := poll_settled parse i Rejected s in
  fst (renderResults parse (json_data j s) (json_state j s)) = Throw TypeError
  /\ intervals s' = delete i (intervals s)
  /\ resultsSection s' = parse poll_failed_markup
  /\ button_disabled s' = false
  /\ button_text s' = "Upload and Process"
  /\ requests s' = requests s
  /\ console s' = console s ++ [("Polling failed:", TypeError)]
  /\ (intervals s' = intervals failed
      /\ resultsSection s' = resultsSection failed
      /\ button_disabled s' = button_disabled failed
      /\ button_text s' = button_text failed
      /\ requests s' = requests failed
      /\ console s' = console failed).
Proof.
  intros Hok Hno s' failed. rewrite <- (has_photos_array_json j s) in Hno.
  pose proof (renderResults_without_photos parse _ _ Hno) as He.
  pose proof (renderResults_frame parse (json_data j s) (json_state j s)) as Hframe.
  destruct (renderResults parse (json_data j s) (json_state j s)) as [r s2] eqn:Hrun.
  simpl in He, Hframe. subst r.
  assert (Hs' : s' = snd (poll_failed parse i TypeError s2)).
  { subst s'. eapply poll_settled_render_throws; eauto. }
  rewrite Hs'. subst failed. simpl. rewrite Hframe. simpl.
  repeat split; reflexivity.
Qed.

Lemma poll_record_without_photos_witness :
  let s' := poll_settled Html.parse_html 0
              (Response 200 (Parsed record_without_photos)) polling in
  response_ok 200 = true
  /\ json_has_photos_array record_without_photos = false
  /\ intervals polling !! 0 = Some (VStr "abc")
  /\ intervals s' !! 0 = None
  /\ resultsSection s' = Html.parse_html poll_failed_markup
  /\ button_disabled s' = false.
Proof.
  split; [reflexivity|]. split; [reflexivity|].
  split; [vm_compute; reflexivity|].
  destruct (poll_record_without_photos Html.parse_html polling 0 200
              record_without_photos eq_refl eq_refl)
    as (_ & Hint & Hres & Hdis & _).
  split; [rewrite Hint; apply lookup_delete_eq|].
  split; [exact Hres | exact Hdis].
Defined.

(** ** Previews *)

Lemma fileInput_change_eq parse files s :
  fileInput_change parse files s
  = set_readers (readers s ++ files)
      (set_imagePreview (parse EmptyString) (set_selectedFiles files s)).
Proof. reflexivity. Qed.

Lemma uploadButton_click_preview parse s :
  imagePreview (uploadButton_click parse s) = imagePreview s
  /\ readers (uploadButton_click parse s) = readers s.
Proof.
  unfold uploadButton_click, detached, alert, bind, modify, fetch,
    results_innerHTML. simpl.
  by destruct (length (selectedFiles s) =? 0)%nat.
Qed.

Lemma upload_settled_preview parse o s :
  imagePreview (upload_settled parse o s) = imagePreview s
  /\ readers (upload_settled parse o s) = readers s.
Proof.
  unfold upload_settled, detached, try_catch, bind, checked_response,
    response_json, get_prop, read, pollForResults, detached, to_string,
    upload_failed, console_error, enable_button, results_innerHTML,
    setInterval, modify, throw, ret, bind.
  destruct o as [|status [|j]]; simpl; [done| |].
  - by destruct (response_ok status).
  - destruct (response_ok status); simpl; [|done].
    destruct (alloc_json j (heap_of s)) as [v h]. simpl.
    destruct (get h v "id") as [id|e]; simpl; [|done].
    by destruct (ToString h id).
Qed.

Lemma interval_tick_preview parse i s :
  imagePreview (interval_tick parse i s) = imagePreview s
  /\ readers (interval_tick parse i s) = readers s.
Proof.
  unfold interval_tick, detached, try_catch, bind, to_string, read, fetch,
    poll_failed, console_error, clearInterval, enable_button,
    results_innerHTML, modify, bind.
  destruct (intervals s !! i) as [uploadId|]; [|done]. simpl.
  by destruct (ToString (heap_of s) uploadId).
Qed.

Lemma poll_settled_failed parse i o s :
  request_failed o = true ->
  exists error, poll_settled parse i o s = snd (poll_failed parse i error s).
Proof.
  intros Hfail.
  unfold poll_settled, detached, try_catch, bind, checked_response.
  destruct o as [|status [|j]]; simpl in Hfail |- *.
  - eauto.
  - destruct (response_ok status); simpl; eauto.
  - rewrite Hfail. simpl. eauto.
Qed.

Lemma poll_settled_preview parse i o s :
  imagePreview (poll_settled parse i o s) = imagePreview s
  /\ readers (poll_settled parse i o s) = readers s.
Proof.
  destruct (request_failed o) eqn:Hfail.
  - destruct (poll_settled_failed parse i o s Hfail) as (error & ->). done.
  - destruct o as [|status [|j]]; try done. simpl in Hfail.
    apply negb_false_iff in Hfail.
    pose proof (renderResults_frame parse (json_data j s) (json_state j s)) as Hframe.
    destruct (renderResults parse (json_data j s) (json_state j s))
      as [[[]|e] s2] eqn:Hrun; simpl in Hframe.
    + destruct (renderResults_ok_status parse (json_data j s) (json_state j s))
        as (st & Hst); [by rewrite Hrun|].
      rewrite (poll_settled_rendered _ _ _ _ _ _ _ Hfail Hrun Hst).
      destruct (is_terminal st); simpl; by rewrite Hframe.
    + rewrite (poll_settled_render_throws _ _ _ _ _ _ _ Hfail Hrun).
      simpl. by rewrite Hframe.
Qed.

(** Between two changes of the selection only the completion of a read
    touches the preview region and the pending reads. *)
Lemma step_preview parse s e files :
  same_selection e ->
  (forall file, file ∈ readers s -> file ∈ files) ->
  thumbnails_of files (imagePreview s) ->
  (forall file, file ∈ readers (step parse s e) -> file ∈ files)
  /\ thumbnails_of files (imagePreview (step parse s e)).
Proof.
  intros He Hreaders Hprev.
  assert (Hkeep : forall s',
             imagePreview s' = imagePreview s /\ readers s' = readers s ->
             (forall file, file ∈ readers s' -> file ∈ files)
             /\ thumbnails_of files (imagePreview s')).
  { intros s' [-> ->]. done. }
  destruct e as [fs|k|k| |o|i|i o]; simpl; try done.
  - unfold reader_onload.
    destruct (readers s !! k) as [file|] eqn:Hk; [|done]. simpl. split.
    + intros f Hf. apply Hreaders. by eapply list_elem_of_delete_inv.
    + intros n Hn. apply elem_of_app in Hn as [Hn|Hn]; [by apply Hprev|].
      apply list_elem_of_singleton in Hn as ->.
      exists file. split; [|done]. apply Hreaders.
      by eapply list_elem_of_lookup_2.
  - unfold reader_onerror. simpl. split; [|done].
    intros f Hf. apply Hreaders. by eapply list_elem_of_delete_inv.
  - destruct (button_disabled s); [done|].
    apply Hkeep, uploadButton_click_preview.
  - apply Hkeep, upload_settled_preview.
  - apply Hkeep, interval_tick_preview.
  - apply Hkeep, poll_settled_preview.
Qed.

Lemma run_preview parse es files : forall s,
  Forall same_selection es ->
  (forall file, file ∈ readers s -> file ∈ files) ->
  thumbnails_of files (imagePreview s) ->
  thumbnails_of files (imagePreview (run parse s es)).
Proof.
  induction es as [|e es IH]; intros s Hes Hreaders Hprev; [done|].
  inversion Hes as [|? ? He Hes']; subst. simpl.
  destruct (step_preview parse s e files He Hreaders Hprev) as [Hr Hp].
  by apply IH.
Qed.

(** C10, as the code has it.  A change of the selection empties the preview
    region before any read of the new files is started, so the thumbnails
    shown before the change are gone when the handler returns; thumbnails are
    appended only as reads complete.  Reads started earlier are not
    cancelled: when none is pending at the change, every thumbnail shown until
    the next change belongs to the new selection, and after a change to the
    empty selection the region stays empty. *)
Theorem selection_change parse s files :
  parse EmptyString = [] ->
  let s' := fileInput_change parse files s in
  selectedFiles s' = files
  /\ imagePreview s' = []
  /\ readers s' = readers s ++ files
  /\ (readers s = [] ->
      forall es, Forall same_selection es ->
                 thumbnails_of files (imagePreview (run parse s' es)))
  /\ (readers s = [] -> files = [] ->
      forall es, Forall same_selection es -> imagePreview (run parse s' es) = []).
Proof.
  intros Hempty s'. subst s'. rewrite fileInput_change_eq. simpl.
  do 3 (split; [done|]).
  assert (Hrun : readers s = [] ->
                 forall es, Forall same_selection es ->
                 thumbnails_of files
                   (imagePreview (run parse (fileInput_change parse files s) es))).
  { intros Hr es Hes. apply run_preview; [done| |].
    - rewrite fileInput_change_eq. simpl. by rewrite Hr.
    - rewrite fileInput_change_eq. simpl. rewrite Hempty.
      intros n Hn. by apply elem_of_nil in Hn. }
  split; [exact Hrun|].
  intros Hr -> es Hes. specialize (Hrun Hr es Hes).
  destruct (imagePreview _) as [|n l]; [done|].
  destruct (Hrun n) as (file & Hfile & _); [by left|].
  by apply elem_of_nil in Hfile.
Qed.

Lemma selection_change_witness :
  let s' := fileInput_change Html.parse_html [photo_a] initial in
  Html.parse_html EmptyString = []
  /\ selectedFiles s' = [photo_a]
  /\ imagePreview s' = []
  /\ readers s' = [photo_a].
Proof.
  split; [reflexivity|].
  destruct (selection_change Html.parse_html initial [photo_a] eq_refl)
    as (Hsel & Hprev & Hread & _).
  split; [exact Hsel|]. split; [exact Hprev | exact Hread].
Defined.

(** C10 as stated fails: a read started for an earlier selection completes
    after the selection was changed to the empty one, and its thumbnail is
    appended to the region that the change had emptied. *)
Lemma stale_thumbnail_after_change :
  let s := fileInput_change Html.parse_html [photo_a] initial in
  let s' := run Html.parse_html (fileInput_change Html.parse_html [] s) [ReaderLoad 0] in
  selectedFiles s' = []
  /\ imagePreview s' = [thumbnail (data_url photo_a)]
  /\ ~ (forall s files es,
          Forall same_selection es ->
          thumbnails_of files
            (imagePreview (run Html.parse_html
                             (fileInput_change Html.parse_html files s) es))).
Proof.
  split; [reflexivity|]. split; [reflexivity|].
  intros H.
  specialize (H (fileInput_change Html.parse_html [photo_a] initial) []
                [ReaderLoad 0]).
  destruct (H ltac:(by repeat constructor) (thumbnail (data_url photo_a)))
    as (file & Hfile & _); [by left|].
  by apply elem_of_nil in Hfile.
Qed.

(** ** The scenarios of the specification, run on the model *)

Example scenario_A :
  let s := run Html.parse_html polling
             [Tick 0; PollSettled 0 (Response 200 (Parsed record_processing))] in
  resultsSection s
  = [Elem "h2" [] [Text "Results (Status: ";
                   Elem "span" [("class", "status processing")] [Text "processing"];
                   Text ")"]]
  /\ button_disabled s = true
  /\ intervals s !! 0 = Some (VStr "abc")
  /\ map req_url (requests s) = ["/api/uploads/"; "/api/uploads/abc/"].
Proof. vm_compute. repeat split; reflexivity. Qed.

Example scenario_B :
  let s := run Html.parse_html polling
             [Tick 0; PollSettled 0 (Response 200 (Parsed record_processing));
              Tick 0; PollSettled 0 (Response 200 (Parsed record_done));
              Tick 0] in
  resultsSection s !! 1
  = Some (append_at [5]
            (Elem "div" [("class", "answer-card")]
               (Html.parse_html
                  (answer_markup "openai" "gpt-x" "4" "complete" "complete")))
            (Elem "div" [("class", "result-card")]
               (Html.parse_html (card_markup "a.png" "2+2=?"))))
  /\ length (resultsSection s) = 2
  /\ button_disabled s = false
  /\ intervals s = ∅
  /\ length (requests s) = 3.
Proof. vm_compute. repeat split; reflexivity. Qed.

Example scenario_C :
  let s := run Html.parse_html initial
             [Change [photo_a]; Click; UploadSettled (Response 500 Malformed)] in
  resultsSection s
  = [Elem "p" [("class", "status error")] [Text "Upload failed. Please try again."]]
  /\ button_disabled s = false
  /\ intervals s = ∅
  /\ console s = [("Upload failed:", Error "HTTP error! status: 500")].
Proof. vm_compute. repeat split; reflexivity. Qed.

Example scenario_D :
  let s := run Html.parse_html initial [Click] in
  alerts s = ["Please select one or more images to upload."]
  /\ requests s = [].
Proof. vm_compute. repeat split; reflexivity. Qed.

(** ** Further properties: the upload response *)


Lemma ToString_VUndef h : ToString h VUndef = Ok "undefined".
Proof. unfold ToString. by destruct (size h). Qed.

(** What the handler does once the body has an [id] that prints. *)
Lemma upload_settled_started parse s code j idv t :
  response_ok code = true ->
  get (heap_of (json_state j s)) (json_data j s) "id" = Ok idv ->
  ToString (heap_of (json_state j s)) idv = Ok t ->
  upload_settled parse (Response code (Parsed j)) s
  = set_next_interval (S (next_interval s))
      (set_intervals (<[next_interval s := idv]> (intervals s))
         (set_resultsSection (parse (polling_markup t)) (json_state j s))).
Proof.
  intros Hok Hid Ht.
  unfold upload_settled, detached, try_catch.
  erewrite bind_ok; last by (unfold checked_response; rewrite Hok).
  erewrite bind_ok; last apply response_json_parsed.
  erewrite bind_ok; last by (unfold get_prop, read; rewrite Hid).
  unfold pollForResults, detached, bind, to_string, read, results_innerHTML,
    setInterval, modify, ret.
  simpl. simpl in Ht. by rewrite Ht.
Qed.

Lemma interval_tick_request parse s i u t :
  intervals s !! i = Some u ->
  ToString (heap_of s) u = Ok t ->
  interval_tick parse i s = set_requests (requests s ++ [poll_request t]) s.
Proof.
  intros Hi Ht. unfold interval_tick. rewrite Hi.
  unfold detached, try_catch, bind, to_string, read, fetch, modify.
  by rewrite Ht.
Qed.

Lemma upload_settled_failed parse o s :
  request_failed o = true ->
  exists error, upload_settled parse o s = snd (upload_failed parse error s).
Proof.
  intros Hfail.
  unfold upload_settled, detached, try_catch, bind, checked_response.
  destruct o as [|status [|j]]; simpl in Hfail |- *.
  - eauto.
  - destruct (response_ok status); simpl; eauto.
  - rewrite Hfail. simpl. eauto.
Qed.



(** X2.  The handler does not check that the body has an [id]: for a 2xx
    body other than [null] without that member, polling starts with
    [undefined] as the id, the results region names the id "undefined", and
    the first tick requests [/api/uploads/undefined/]. *)
Theorem upload_without_id_polls_undefined parse s code j :
  response_ok code = true ->
  j <> JNull ->
  json_field "id" j = None ->
  let s' := upload_settled parse (Response code (Parsed j)) s in
  resultsSection s' = parse (polling_markup "undefined")
  /\ intervals s' = <[next_interval s := VUndef]> (intervals s)
  /\ button_disabled s' = button_disabled s
  /\ console s' = console s
  /\ interval_tick parse (next_interval s) s'
     = set_requests (requests s ++ [poll_request "undefined"]) s'.
Proof.
  intros Hok Hnull Hid s'.
  assert (Hget : get (heap_of (json_state j s)) (json_data j s) "id" = Ok VUndef).
  { pose proof (json_data_field "id" j s) as H.
    destruct j as [ | | | |items|fields]; try done. by rewrite Hid in H. }
  assert (Hs' : s' = set_next_interval (S (next_interval s))
                       (set_intervals (<[next_interval s := VUndef]> (intervals s))
                          (set_resultsSection (parse (polling_markup "undefined"))
                             (json_state j s)))).
  { subst s'. apply upload_settled_started; [done..|apply ToString_VUndef]. }
  rewrite Hs'. simpl. do 4 (split; [done|]).
  erewrite interval_tick_request;
    [reflexivity | apply lookup_insert_eq | apply ToString_VUndef].
Qed.

Lemma upload_without_id_polls_undefined_witness :
  let s' := upload_settled Html.parse_html
              (Response 200 (Parsed upload_without_id)) initial in
  response_ok 200 = true
  /\ upload_without_id <> JNull
  /\ json_field "id" upload_without_id = None
  /\ intervals s' !! 0 = Some VUndef
  /\ requests (interval_tick Html.parse_html 0 s') = [poll_request "undefined"].
Proof.
  split; [reflexivity|]. split; [discriminate|]. split; [reflexivity|].
  destruct (upload_without_id_polls_undefined Html.parse_html initial 200
              upload_without_id eq_refl ltac:(discriminate) eq_refl)
    as (_ & Hint & _ & _ & Htick).
  split; [rewrite Hint; apply lookup_insert_eq|].
  change (next_interval initial) with 0 in Htick. rewrite Htick. reflexivity.
Defined.

(** X3.  A 2xx upload response whose body is the JSON text [null] is handled
    as a failed upload: reading [result.id] throws inside the [try], so the
    error message is shown, the button is enabled again and no timer is
    started. *)
Theorem upload_null_body parse s code :
  response_ok code = true ->
  let s' := upload_settled parse (Response code (Parsed JNull)) s in
  resultsSection s' = parse upload_failed_markup
  /\ button_disabled s' = false
  /\ button_text s' = "Upload and Process"
  /\ intervals s' = intervals s
  /\ requests s' = requests s
  /\ console s' = console s ++ [("Upload failed:", TypeError)].
Proof.
  intros Hok s'. subst s'.
  unfold upload_settled, detached, try_catch.
  erewrite bind_ok; last by (unfold checked_response; rewrite Hok).
  erewrite bind_ok; last apply response_json_parsed.
  erewrite bind_throw; last by (unfold get_prop, read).
  by destruct s.
Qed.

Lemma upload_null_body_witness :
  let s' := upload_settled Html.parse_html (Response 200 (Parsed JNull)) initial in
  response_ok 200 = true
  /\ resultsSection s' = Html.parse_html upload_failed_markup
  /\ console s' = [("Upload failed:", TypeError)].
Proof.
  split; [reflexivity|].
  destruct (upload_null_body Html.parse_html initial 200 eq_refl)
    as (Hres & _ & _ & _ & _ & Hcon).
  split; [exact Hres | exact Hcon].
Defined.

(** X4.  An exception inside [pollForResults] does not reach the [catch] of
    the click handler, because the call is not awaited: when the [id] of a
    2xx body cannot be converted to a string, nothing is shown or logged, no
    timer is started, and the button stays as the click left it. *)
Theorem upload_with_unprintable_id parse s code j idv e :
  response_ok code = true ->
  get (heap_of (json_state j s)) (json_data j s) "id" = Ok idv ->
  ToString (heap_of (json_state j s)) idv = Throw e ->
  let s' := upload_settled parse (Response code (Parsed j)) s in
  s' = json_state j s
  /\ resultsSection s' = resultsSection s
  /\ button_disabled s' = button_disabled s
  /\ button_text s' = button_text s
  /\ intervals s' = intervals s
  /\ console s' = console s.
Proof.
  intros Hok Hid Ht s'.
  assert (Hs' : s' = json_state j s); [|by rewrite Hs'].
  subst s'. unfold upload_settled, detached, try_catch.
  erewrite bind_ok; last by (unfold checked_response; rewrite Hok).
  erewrite bind_ok; last apply response_json_parsed.
  erewrite bind_ok; last by (unfold get_prop, read; rewrite Hid).
  unfold pollForResults, detached, bind, to_string, read.
  simpl. simpl in Ht. by rewrite Ht.
Qed.

Lemma upload_with_unprintable_id_witness :
  let s := uploadButton_click Html.parse_html
             (fileInput_change Html.parse_html [photo_a] initial) in
  let s' := upload_settled Html.parse_html
              (Response 200 (Parsed upload_with_odd_id)) s in
  response_ok 200 = true
  /\ get (heap_of (json_state upload_with_odd_id s))
       (json_data upload_with_odd_id s) "id" = Ok (VRef 0)
  /\ ToString (heap_of (json_state upload_with_odd_id s)) (VRef 0) = Throw TypeError
  /\ button_disabled s' = true
  /\ resultsSection s' = Html.parse_html processing_markup
  /\ intervals s' = ∅.
Proof.
  assert (H1 : get (heap_of (json_state upload_with_odd_id
                      (uploadButton_click Html.parse_html
                         (fileInput_change Html.parse_html [photo_a] initial))))
                 (json_data upload_with_odd_id
                    (uploadButton_click Html.parse_html
                       (fileInput_change Html.parse_html [photo_a] initial))) "id"
               = Ok (VRef 0)) by (vm_compute; reflexivity).
  assert (H2 : ToString (heap_of (json_state upload_with_odd_id
                      (uploadButton_click Html.parse_html
                         (fileInput_change Html.parse_html [photo_a] initial))))
                 (VRef 0) = Throw TypeError) by (vm_compute; reflexivity).
  split; [reflexivity|]. split; [exact H1|]. split; [exact H2|].
  destruct (upload_with_unprintable_id Html.parse_html _ 200 upload_with_odd_id
              (VRef 0) TypeError eq_refl H1 H2)
    as (_ & Hres & Hdis & _ & Hint & _).
  split; [rewrite Hdis; reflexivity|].
  split; [rewrite Hres; reflexivity | rewrite Hint; reflexivity].
Defined.

(** X5.  A failed upload keeps the selection, so the next click sends the
    same files again: after the failure the button takes a click, and that
    click disables it and issues the POST with one part per selected file. *)
Theorem retry_after_failed_upload parse s o :
  request_failed o = true ->
  selectedFiles s <> [] ->
  let s1 := upload_settled parse o s in
  let s2 := step parse s1 Click in
  selectedFiles s1 = selectedFiles s
  /\ button_disabled s1 = false
  /\ button_disabled s2 = true
  /\ requests s2 = requests s ++ [upload_request (selectedFiles s)].
Proof.
  intros Hfail Hsel s1 s2.
  destruct (upload_settled_failed parse o s Hfail) as (error & Hs1).
  subst s2 s1. rewrite Hs1. simpl.
  unfold uploadButton_click, detached. simpl.
  destruct (selectedFiles s) as [|f fs]; [done|]. simpl. done.
Qed.

Lemma retry_after_failed_upload_witness :
  let s := uploadButton_click Html.parse_html
             (fileInput_change Html.parse_html [photo_a] initial) in
  let s2 := step Html.parse_html
              (upload_settled Html.parse_html (Response 503 Malformed) s) Click in
  request_failed (Response 503 Malformed) = true
  /\ selectedFiles s <> []
  /\ requests s2 = [upload_request [photo_a]; upload_request [photo_a]].
Proof.
  split; [reflexivity|]. split; [discriminate|].
  destruct (retry_after_failed_upload Html.parse_html
              (uploadButton_click Html.parse_html
                 (fileInput_change Html.parse_html [photo_a] initial))
              (Response 503 Malformed) eq_refl ltac:(discriminate))
    as (_ & _ & _ & Hreq).
  exact Hreq.
Defined.

(** X6.  The selection is replaced, not extended: a click right after a
    change uploads the files of that change only, whatever was selected
    before. *)
Theorem click_after_change parse s files :
  files <> [] ->
  button_disabled s = false ->
  let s' := run parse s [Change files; Click] in
  selectedFiles s' = files
  /\ button_disabled s' = true
  /\ requests s' = requests s ++ [upload_request files].
Proof.
  intros Hfiles Hen s'. subst s'. simpl.
  rewrite fileInput_change_eq. simpl. rewrite Hen.
  unfold uploadButton_click, detached. simpl.
  destruct files as [|f fs]; [done|]. simpl. done.
Qed.

Lemma click_after_change_witness :
  let s := fileInput_change Html.parse_html [photo_a] initial in
  let s' := run Html.parse_html s [Change [photo_b]; Click] in
  [photo_b] <> []
  /\ button_disabled s = false
  /\ requests s' = [upload_request [photo_b]].
Proof.
  split; [discriminate|]. split; [reflexivity|].
  destruct (click_after_change Html.parse_html
              (fileInput_change Html.parse_html [photo_a] initial) [photo_b]
              ltac:(discriminate) eq_refl) as (_ & _ & Hreq).
  exact Hreq.
Defined.

(** ** Further properties: the end of polling *)

Lemma ticks_of_cleared_timer parse s i n :
  intervals s !! i = None -> run parse s (replicate n (Tick i)) = s.
Proof.
  intros Hi. induction n as [|n IH]; [done|].
  simpl. unfold interval_tick. by rewrite Hi.
Qed.

(** X7.  Once a tick has stopped the polling, on a failure or on a rendered
    record whose status is "done" or "error", the later firings of that
    timer do nothing: no request is issued and the page stays as it is. *)
Theorem no_tick_after_polling_stopped parse s i o n :
  request_failed o = true
  \/ (exists code j,
        o = Response code (Parsed j)
        /\ response_ok code = true
        /\ fst (renderResults parse (json_data j s) (json_state j s)) = Ok tt
        /\ (json_field "status" j = Some (JStr "done")
            \/ json_field "status" j = Some (JStr "error"))) ->
  let s' := poll_settled parse i o s in
  intervals s' !! i = None
  /\ run parse s' (replicate n (Tick i)) = s'.
Proof.
  intros Hstop s'.
  assert (Hi : intervals s' !! i = None);
    [|split; [exact Hi | by apply ticks_of_cleared_timer]].
  subst s'. destruct Hstop as [Hfail|(code & j & -> & Hok & Hrender & Hterm)].
  - destruct (poll_settled_failed parse i o s Hfail) as (error & ->).
    simpl. apply lookup_delete_eq.
  - destruct (renderResults_ok_status _ _ _ Hrender) as (st & Hst).
    destruct (renderResults parse (json_data j s) (json_state j s))
      as [r s2] eqn:Hrun.
    simpl in Hrender. subst r.
    rewrite (poll_settled_rendered _ _ _ _ _ _ _ Hok Hrun Hst).
    assert (is_terminal st = true) as ->.
    { apply is_terminal_spec.
      rewrite <- (status_json j s "done"), <- (status_json j s "error") in Hterm.
      rewrite Hst in Hterm. destruct Hterm; [left|right]; congruence. }
    simpl. apply lookup_delete_eq.
Qed.

Lemma no_tick_after_polling_stopped_witness :
  let s' := poll_settled Html.parse_html 0 (Response 200 (Parsed record_done)) polling in
  intervals polling !! 0 = Some (VStr "abc")
  /\ intervals s' !! 0 = None
  /\ run Html.parse_html s' (replicate 3 (Tick 0)) = s'.
Proof.
  split; [vm_compute; reflexivity|].
  apply (no_tick_after_polling_stopped Html.parse_html polling 0
           (Response 200 (Parsed record_done)) 3).
  right. exists 200, record_done.
  split; [reflexivity|]. split; [reflexivity|].
  split; [vm_compute; reflexivity | left; reflexivity].
Defined.

(** ** Further properties: the thumbnails *)

Lemma step_thumbnails parse s e :
  keeps_reads e ->
  imagePreview (step parse s e) ++ thumbnails (readers (step parse s e))
  ≡ₚ imagePreview s ++ thumbnails (readers s).
Proof.
  intros He.
  assert (Hkeep : forall s',
             imagePreview s' = imagePreview s /\ readers s' = readers s ->
             imagePreview s' ++ thumbnails (readers s')
             ≡ₚ imagePreview s ++ thumbnails (readers s)).
  { by intros s' [-> ->]. }
  destruct e as [fs|k|k| |o|i|i o]; simpl; try done.
  - unfold reader_onload.
    destruct (readers s !! k) as [file|] eqn:Hk; [|done]. simpl.
    rewrite <- (assoc_L (++)). apply Permutation_app_head. simpl.
    unfold thumbnails.
    rewrite (delete_Permutation (readers s) k file Hk) at 2. done.
  - destruct (button_disabled s); [done|].
    apply Hkeep, uploadButton_click_preview.
  - apply Hkeep, upload_settled_preview.
  - apply Hkeep, interval_tick_preview.
  - apply Hkeep, poll_settled_preview.
Qed.

Lemma run_thumbnails parse es : forall s,
  Forall keeps_reads es ->
  imagePreview (run parse s es) ++ thumbnails (readers (run parse s es))
  ≡ₚ imagePreview s ++ thumbnails (readers s).
Proof.
  induction es as [|e es IH]; intros s Hes; [done|].
  inversion Hes as [|? ? He Hes']; subst. simpl.
  rewrite (IH _ Hes'). by apply step_thumbnails.
Qed.

Lemma step_keeps_preview parse s e :
  keeps_reads e ->
  match e with ReaderLoad _ => False | _ => True end ->
  imagePreview (step parse s e) = imagePreview s
  /\ readers (step parse s e) = readers s.
Proof.
  intros He Hnot. destruct e as [fs|k|k| |o|i|i o]; simpl; try done.
  - destruct (button_disabled s); [done | apply uploadButton_click_preview].
  - apply upload_settled_preview.
  - apply interval_tick_preview.
  - apply poll_settled_preview.
Qed.

(** Every completed read appends its thumbnail after those already shown. *)
Lemma run_completed parse es : forall s,
  Forall keeps_reads es ->
  imagePreview (run parse s es)
  = imagePreview s ++ thumbnails (completed (readers s) es).
Proof.
  induction es as [|e es IH]; intros s Hes; simpl; [by rewrite app_nil_r|].
  inversion Hes as [|? ? He Hes']; subst. rewrite (IH _ Hes').
  destruct e as [fs|k|k| |o|i|i o]; try done.
  - simpl. unfold reader_onload.
    destruct (readers s !! k) as [file|] eqn:Hk; [|done]. simpl.
    by rewrite <- (assoc_L (++)).
  - by destruct (step_keeps_preview parse s Click He I) as [-> ->].
  - by destruct (step_keeps_preview parse s (UploadSettled o) He I) as [-> ->].
  - by destruct (step_keeps_preview parse s (Tick i) He I) as [-> ->].
  - by destruct (step_keeps_preview parse s (PollSettled i o) He I) as [-> ->].
Qed.

(** X8.  One thumbnail per file, in the order the reads complete.  After a
    change of the selection made while no read is pending, and as long as
    the selection is kept and no read fails, the preview region holds the
    thumbnails of the files whose read has completed, in the order of
    completion; together with those of the reads still pending they are the
    thumbnails of the selected files, up to order, and once every read has
    completed the preview region holds exactly one thumbnail per selected
    file. *)
Theorem one_thumbnail_per_file parse s files es :
  parse EmptyString = [] ->
  readers s = [] ->
  Forall keeps_reads es ->
  let s' := run parse (fileInput_change parse files s) es in
  imagePreview s' = thumbnails (completed files es)
  /\ imagePreview s' ++ thumbnails (readers s') ≡ₚ thumbnails files
  /\ (readers s' = [] ->
      imagePreview s' ≡ₚ thumbnails files
      /\ length (imagePreview s') = length files).
Proof.
  intros Hempty Hr Hes s'.
  assert (H : imagePreview s' ++ thumbnails (readers s') ≡ₚ thumbnails files).
  { subst s'. rewrite (run_thumbnails parse es _ Hes), fileInput_change_eq.
    simpl. by rewrite Hempty, Hr. }
  split.
  { subst s'. rewrite (run_completed parse es _ Hes), fileInput_change_eq.
    simpl. by rewrite Hempty, Hr. }
  split; [exact H|].
  intros Hdone. rewrite Hdone in H. simpl in H. rewrite app_nil_r in H.
  split; [exact H|]. rewrite H. unfold thumbnails. by rewrite length_map.
Qed.

Lemma one_thumbnail_per_file_witness :
  let s' := run Html.parse_html
              (fileInput_change Html.parse_html [photo_a; photo_b] initial)
              [ReaderLoad 1; Click; ReaderLoad 0] in
  Html.parse_html EmptyString = []
  /\ readers initial = []
  /\ readers s' = []
  /\ imagePreview s' = [thumbnail (data_url photo_b); thumbnail (data_url photo_a)]
  /\ imagePreview s' ≡ₚ thumbnails [photo_a; photo_b].
Proof.
  split; [reflexivity|]. split; [reflexivity|]. split; [reflexivity|].
  destruct (one_thumbnail_per_file Html.parse_html initial [photo_a; photo_b]
              [ReaderLoad 1; Click; ReaderLoad 0] eq_refl eq_refl)
    as (Horder & _ & Hdone).
  - repeat constructor.
  - split; [exact Horder|].
    destruct (Hdone eq_refl) as (Hperm & _). exact Hperm.
Defined.

(** ** Further properties: the cards *)

Ltac split_reads :=
  repeat (match goal with
          | |- context [truthy ?v] => destruct (truthy v)
          | |- context [get ?h ?v ?k] => destruct (get h v k)
          | |- context [ToString ?h ?v] => destruct (ToString h v)
          end; simpl; try done).

(** [render_answer] reads the heap and gives the card with the answer
    appended at the grid; it leaves the state alone. *)
Lemma render_answer_run parse grid card answer s :
  render_answer parse grid card answer s
  = (add_answer parse (heap_of s) grid card answer, s).
Proof.
  unfold render_answer, add_answer, answer_card, res_bind, js_or, bind,
    get_prop, to_string, read, ret, throw.
  simpl. split_reads. all: by destruct grid.
Qed.

Lemma forEach_from_run {A} (cb : A -> val -> M A) (f : heap -> A -> val -> Res A)
    l elems s :
  (forall a e s0, cb a e s0 = (f (heap_of s0) a e, s0)) ->
  heap_of s !! l = Some (OArr elems) ->
  forall n k a,
    forEach_from n k l cb a s
    = (fold_res (f (heap_of s)) (take n (drop k elems)) a, s).
Proof.
  intros Hcb Hl. induction n as [|n IH]; intros k a; simpl; [done|].
  unfold bind, visit. rewrite Hl.
  destruct (elems !! k) as [e|] eqn:Hk.
  - rewrite Hcb, (drop_S _ _ _ Hk). simpl.
    destruct (f (heap_of s) a e) as [a'|x]; [apply IH | done].
  - rewrite IH. apply lookup_ge_None in Hk.
    rewrite (drop_ge elems k), (drop_ge elems (S k)) by lia.
    by rewrite !take_nil.
Qed.

Lemma forEach_run {A} (cb : A -> val -> M A) (f : heap -> A -> val -> Res A)
    v a s :
  (forall a e s0, cb a e s0 = (f (heap_of s0) a e, s0)) ->
  forEach v cb a s
  = (match v with
     | VRef l =>
         match heap_of s !! l with
         | Some (OArr elems) => fold_res (f (heap_of s)) elems a
         | _ => Throw TypeError
         end
     | _ => Throw TypeError
     end, s).
Proof.
  intros Hcb. unfold forEach. destruct v as [| | | | |l]; try done.
  destruct (heap_of s !! l) as [[elems|props]|] eqn:Hl; try done.
  rewrite (forEach_from_run cb f l elems s Hcb Hl).
  by rewrite drop_0, firstn_all.
Qed.

Lemma fold_add_answer parse h grid answers : forall base card,
  fold_res (add_answer parse h grid) answers base = Ok card ->
  exists acards,
    Forall2 (fun a c => answer_card parse h a = Ok c) answers acards
    /\ card = append_all grid acards base
    /\ (answers <> [] -> is_Some grid).
Proof.
  induction answers as [|a answers IH]; intros base card; simpl.
  - intros [= <-]. exists []. by repeat split.
  - unfold add_answer at 1, res_bind.
    destruct (answer_card parse h a) as [c|x] eqn:Hc; [|done].
    destruct grid as [p|]; [|done].
    intros Hrest. destruct (IH _ _ Hrest) as (acards & Hall & -> & _).
    exists (c :: acards). split; [by constructor|]. split; [done | eauto].
Qed.

Local Arguments querySelector : simpl never.

Ltac use_reads :=
  repeat (simpl; rewrite ?ToString_VStr;
          match goal with
          | H : get ?h ?v ?k = _ |- context [get ?h ?v ?k] => rewrite H
          | H : ToString ?h ?v = _ |- context [ToString ?h ?v] => rewrite H
          | H : truthy ?v = _ |- context [truthy ?v] => rewrite H
          end);
  simpl; rewrite ?ToString_VStr; simpl.

Ltac next_read :=
  match goal with
  | |- context [truthy ?v] => destruct (truthy v) eqn:?
  | |- context [get ?h ?v ?k] => destruct (get h v k) eqn:?
  | |- context [ToString ?h ?v] => destruct (ToString h v) eqn:?
  end;
  use_reads; try done.

Ltac reads_known :=
  repeat match goal with
         | H : truthy ?v = _ |- context [truthy ?v] => rewrite H
         end.

(** The first five parts of [renders_as], from the reads in the context. *)
Ltac solve_renders :=
  unfold renders_as; eexists _, _, _, _, _;
  split; [eassumption|]; split; [eassumption|]; split; [eassumption|];
  split;
  [reads_known;
   first [reflexivity
         | eexists; split; [eassumption|]; reads_known;
           first [eassumption | reflexivity]]|];
  split;
  [reads_known;
   first [reflexivity
         | eexists; split; [eassumption|]; reads_known; try reflexivity]|].

(** What a call of [render_photo] that returns has done. *)
Lemma render_photo_returns parse photo s s' :
  render_photo parse tt photo s = (Ok tt, s') ->
  exists card,
    s' = set_resultsSection (resultsSection s ++ [card]) s
    /\ renders_as parse (heap_of s) photo card.
Proof.
  unfold render_photo, js_and, bind, get_prop, to_string, read,
    results_appendChild, modify, ret.
  simpl.
  repeat next_read.
  all: try rewrite (forEach_run _ (fun h => add_answer parse h _) _ _ _
                      (render_answer_run parse _)).
  all: try (intros [= <-]; eexists; split; [reflexivity|]; solve_renders;
            reflexivity).
  all: match goal with
       | |- context [match ?av with VRef _ => _ | _ => _ end] =>
           destruct av as [| | | | |la]; try done
       end;
    destruct (heap_of s !! la) as [[answers|props]|] eqn:Hla; try done;
    match goal with
    | |- context [fold_res ?f ?l ?b] =>
        destruct (fold_res f l b) as [card|x] eqn:Hfold; [|done]
    end;
    intros [= <-]; eexists; split; [reflexivity|];
    destruct (fold_add_answer _ _ _ _ _ _ Hfold) as (acards & Hall & -> & Hgrid);
    solve_renders;
    [eexists _, _; split; [reflexivity|]; split; [exact Hla|];
     split; [exact Hall | exact Hgrid]
    | reflexivity].
Qed.

Lemma forEach_from_all (cb : unit -> val -> M unit) l elems s :
  (forall e, one_card (cb tt e)) ->
  heap_of s !! l = Some (OArr elems) ->
  forall n k out,
    appends (forEach_from n k l cb tt) s (Ok tt) out ->
    Forall2 (fun e card => appends (cb tt e) s (Ok tt) [card])
      (take n (drop k elems)) out.
Proof.
  intros Hcb Hl.
  assert (Happ : forall a e, appending (cb a e)).
  { intros [] e s0. destruct (Hcb e s0) as (r & out & H & _). eauto. }
  induction n as [|n IH]; intros k out Hrun.
  - destruct (appends_fun _ _ _ _ _ _ Hrun (appends_ret tt s)) as [_ ->].
    constructor.
  - simpl in Hrun. destruct (elems !! k) as [e0|] eqn:Hk.
    + rewrite (drop_S _ _ _ Hk). simpl.
      destruct (Hcb e0 s) as ([[]|err] & out1 & H1 & Hlen).
      * specialize (Hlen tt eq_refl).
        destruct out1 as [|c [|? ?]]; try done. clear Hlen.
        destruct (appending_forEach_from cb l Happ n (S k) tt s) as (r2 & out2 & H2).
        pose proof (appends_bind_ok _ (fun a' => forEach_from n (S k) l cb a')
                      _ _ _ _ _ (visit_some _ _ _ _ _ _ _ _ _ Hl Hk H1) H2) as Hb.
        destruct (appends_fun _ _ _ _ _ _ Hrun Hb) as [<- ->].
        constructor; [done | by apply IH].
      * pose proof (appends_bind_throw _ (fun a' => forEach_from n (S k) l cb a')
                      _ _ _ (visit_some _ _ _ _ _ _ _ _ _ Hl Hk H1)) as Hb.
        by destruct (appends_fun _ _ _ _ _ _ Hrun Hb).
    + apply lookup_ge_None in Hk. rewrite drop_ge, take_nil by lia.
      assert (Hv : appends (visit l k cb tt) s (Ok tt) []).
      { intros X. unfold visit. simpl. rewrite Hl.
        rewrite (proj2 (lookup_ge_None elems k)) by lia. by rewrite app_nil_r. }
      destruct (appending_forEach_from cb l Happ n (S k) tt s) as (r2 & out2 & H2).
      pose proof (appends_bind_ok _ (fun a' => forEach_from n (S k) l cb a')
                    _ _ _ _ _ Hv H2) as Hb.
      destruct (appends_fun _ _ _ _ _ _ Hrun Hb) as [<- ->]. simpl.
      specialize (IH (S k) out2 H2).
      by rewrite drop_ge, take_nil in IH by lia.
Qed.

Lemma append_all_result_card grid acards base :
  is_result_card base -> is_result_card (append_all grid acards base).
Proof.
  unfold append_all. revert base.
  induction acards as [|c acards IH]; intros base Hbase; simpl; [done|].
  apply IH. destruct Hbase as (kids & ->).
  destruct (default [] grid) as [|i p]; simpl; by eexists.
Qed.

Lemma renders_as_result_card parse h photo card :
  renders_as parse h photo card -> is_result_card card.
Proof.
  intros (q & fv & filename & questionText & acards & _ & _ & _ & _ & _ & ->).
  apply append_all_result_card. by eexists.
Qed.

(** A rendering that returns has written the header and then, for each
    photo in order, the card [render_photo] builds for it. *)
Lemma rendered_cards parse data s lp elems :
  get (heap_of s) data "photos" = Ok (VRef lp) ->
  heap_of s !! lp = Some (OArr elems) ->
  fst (renderResults parse data s) = Ok tt ->
  exists st status cards,
    get (heap_of s) data "status" = Ok st
    /\ ToString (heap_of s) st = Ok status
    /\ resultsSection (snd (renderResults parse data s))
       = parse (header_markup status status) ++ cards
    /\ Forall2 (renders_as parse (heap_of s)) elems cards.
Proof.
  intros Hphotos Hlp Hok.
  destruct (renderResults_ok _ _ _ Hok) as (st & t & out & Hst & Ht & Hcards & Hres).
  assert (Hloop : appends (forEach_from (length elems) 0 lp (render_photo parse) tt)
                    s (Ok tt) out).
  { intros X. specialize (Hcards X). revert Hcards.
    unfold render_cards, bind, get_prop, read, forEach. simpl.
    by rewrite Hphotos, Hlp. }
  exists st, t, out. do 3 (split; [done|]).
  pose proof (forEach_from_all (render_photo parse) lp elems s
                (one_card_render_photo parse tt) Hlp _ _ _ Hloop) as Hall.
  rewrite drop_0, firstn_all in Hall.
  eapply Forall2_impl; [exact Hall|].
  intros photo card Hphoto. simpl in Hphoto.
  pose proof (Hphoto (resultsSection s)) as Hrun.
  rewrite set_resultsSection_same in Hrun.
  destruct (render_photo_returns _ _ _ _ Hrun) as (card' & Heq & Hcard).
  apply (f_equal resultsSection) in Heq. simpl in Heq.
  apply app_inv_head in Heq. by injection Heq as ->.
Qed.

(** X9.  One card per photo, in order.  When the render step returns, the
    results region holds the parsed header, which shows the status twice,
    followed by exactly one [div.result-card] per element of [photos], the
    [i]-th being the card [render_photo] builds for the [i]-th photo; with
    no photo the region holds the header only. *)
Theorem one_card_per_photo parse data s lp elems :
  get (heap_of s) data "photos" = Ok (VRef lp) ->
  heap_of s !! lp = Some (OArr elems) ->
  fst (renderResults parse data s) = Ok tt ->
  exists st status cards,
    get (heap_of s) data "status" = Ok st
    /\ ToString (heap_of s) st = Ok status
    /\ resultsSection (snd (renderResults parse data s))
       = parse (header_markup status status) ++ cards
    /\ length cards = length elems
    /\ Forall is_result_card cards
    /\ Forall2 (renders_as parse (heap_of s)) elems cards
    /\ (elems = [] ->
        resultsSection (snd (renderResults parse data s))
        = parse (header_markup status status)).
Proof.
  intros Hphotos Hlp Hok.
  destruct (rendered_cards _ _ _ _ _ Hphotos Hlp Hok)
    as (st & status & cards & Hst & Hstatus & Hres & Hall).
  exists st, status, cards. do 3 (split; [done|]).
  split; [symmetry; by eapply Forall2_length|].
  split.
  - apply Forall_lookup. intros i card Hi.
    destruct (Forall2_lookup_r _ _ _ _ _ Hall Hi) as (photo & _ & Hcard).
    by eapply renders_as_result_card.
  - split; [done|]. intros ->. apply Forall2_nil_inv_l in Hall as ->.
    by rewrite Hres, app_nil_r.
Qed.

Lemma one_card_per_photo_witness :
  get (heap_of answering) (VRef 6) "photos" = Ok (VRef 5)
  /\ heap_of answering !! 5 = Some (OArr [VRef 4])
  /\ fst (renderResults Html.parse_html (VRef 6) answering) = Ok tt
  /\ exists cards,
       resultsSection (snd (renderResults Html.parse_html (VRef 6) answering))
       = Html.parse_html (header_markup "processing" "processing") ++ cards
       /\ length cards = 1.
Proof.
  assert (H1 : get (heap_of answering) (VRef 6) "photos" = Ok (VRef 5))
    by (vm_compute; reflexivity).
  assert (H2 : heap_of answering !! 5 = Some (OArr [VRef 4]))
    by (vm_compute; reflexivity).
  assert (H3 : fst (renderResults Html.parse_html (VRef 6) answering) = Ok tt)
    by (vm_compute; reflexivity).
  do 3 (split; [assumption|]).
  destruct (one_card_per_photo Html.parse_html (VRef 6) answering 5 [VRef 4]
              H1 H2 H3)
    as (st & status & cards & Hst & Hstatus & Hres & Hlen & _).
  assert (status = "processing") as ->.
  { vm_compute in Hst. injection Hst as <-. vm_compute in Hstatus. congruence. }
  exists cards. split; [exact Hres | exact Hlen].
Defined.



(** X11.  An answer without content shows the placeholder.  When the
    [content] of an answer is falsy (missing, [null], the empty string) and
    the card has an answer grid, [render_answer] appends at the grid the
    card whose text is "No answer yet..." and leaves the page alone. *)
Theorem answer_without_content parse p resultCard answer s c resultCard' s' :
  get (heap_of s) answer "content" = Ok c ->
  truthy c = false ->
  render_answer parse (Some p) resultCard answer s = (Ok resultCard', s') ->
  s' = s
  /\ exists provider model status,
       resultCard'
       = append_at p
           (Elem "div" [("class", "answer-card")]
              (parse (answer_markup provider model "No answer yet..." status status)))
           resultCard.
Proof.
  intros Hc Hf. rewrite render_answer_run. intros [= Hadd <-].
  split; [done|]. revert Hadd.
  unfold add_answer, answer_card, res_bind. rewrite Hc, Hf, ToString_VStr.
  destruct (get (heap_of s) answer "provider") as [pv|]; [|done].
  destruct (ToString (heap_of s) pv) as [provider|]; [|done].
  destruct (get (heap_of s) answer "model") as [mv|]; [|done].
  destruct (ToString (heap_of s) mv) as [model|]; [|done].
  destruct (get (heap_of s) answer "status") as [sv|]; [|done].
  destruct (ToString (heap_of s) sv) as [status|]; [|done].
  intros [= <-]. by exists provider, model, status.
Qed.

Lemma answer_without_content_witness :
  let card := base_card Html.parse_html "a.png" "Extracting text..." in
  let card' :=
    append_at [5]
      (Elem "div" [("class", "answer-card")]
         (Html.parse_html
            (answer_markup "openai" "gpt-x" "No answer yet..." "pending" "pending")))
      card in
  get (heap_of answering) (VRef 1) "content" = Ok VNull
  /\ truthy VNull = false
  /\ render_answer Html.parse_html (Some [5]) card (VRef 1) answering
     = (Ok card', answering)
  /\ exists provider model status,
       card' = append_at [5]
                 (Elem "div" [("class", "answer-card")]
                    (Html.parse_html
                       (answer_markup provider model "No answer yet..." status status)))
                 card.
Proof.
  assert (H1 : get (heap_of answering) (VRef 1) "content" = Ok VNull)
    by (vm_compute; reflexivity).
  assert (H3 : render_answer Html.parse_html (Some [5])
                 (base_card Html.parse_html "a.png" "Extracting text...")
                 (VRef 1) answering
               = (Ok (append_at [5]
                        (Elem "div" [("class", "answer-card")]
                           (Html.parse_html
                              (answer_markup "openai" "gpt-x" "No answer yet..."
                                 "pending" "pending")))
                        (base_card Html.parse_html "a.png" "Extracting text...")),
                  answering))
    by (vm_compute; reflexivity).
  split; [exact H1|]. split; [reflexivity|]. split; [exact H3|].
  exact (proj2 (answer_without_content Html.parse_html [5] _ (VRef 1) answering
                  VNull _ answering H1 eq_refl H3)).
Defined.

(** X12.  A question without text shows the placeholder.  When the render
    step returns, a photo whose question is there but whose
    [extracted_text] is falsy (missing, [null], the empty string) gets a card
    whose markup holds "Extracting text..." as the question text; answer
    cards, if any, are appended to that card. *)
Theorem question_without_text parse data s lp elems i photo q e :
  get (heap_of s) data "photos" = Ok (VRef lp) ->
  heap_of s !! lp = Some (OArr elems) ->
  elems !! i = Some photo ->
  get (heap_of s) photo "question" = Ok q ->
  truthy q = true ->
  get (heap_of s) q "extracted_text" = Ok e ->
  truthy e = false ->
  fst (renderResults parse data s) = Ok tt ->
  exists st status filename acards,
    get (heap_of s) data "status" = Ok st
    /\ ToString (heap_of s) st = Ok status
    /\ resultsSection (snd (renderResults parse data s))
         !! (length (parse (header_markup status status)) + i)
       = Some (append_all
                 (querySelector "answer-grid"
                    (base_card parse filename "Extracting text..."))
                 acards (base_card parse filename "Extracting text...")).
Proof.
  intros Hphotos Hlp Hi Hq Htq He Hte Hok.
  destruct (rendered_cards _ _ _ _ _ Hphotos Hlp Hok)
    as (st & status & cards & Hst & Hstatus & Hres & Hall).
  destruct (Forall2_lookup_l _ _ _ _ _ Hall Hi) as (card & Hcard & Hrenders).
  destruct Hrenders
    as (q' & fv & filename & questionText & acards & Hq' & _ & _ & Htext & _ & ->).
  rewrite Hq in Hq'. injection Hq' as <-. rewrite Htq in Htext.
  destruct Htext as (e' & He' & Htext). rewrite He in He'. injection He' as <-.
  rewrite Hte in Htext. subst questionText.
  exists st, status, filename, acards. do 2 (split; [done|]).
  rewrite Hres, lookup_app_r by lia.
  by replace (_ + i - _) with i by lia.
Qed.

Lemma question_without_text_witness :
  get (heap_of answering) (VRef 6) "photos" = Ok (VRef 5)
  /\ heap_of answering !! 5 = Some (OArr [VRef 4])
  /\ get (heap_of answering) (VRef 4) "question" = Ok (VRef 3)
  /\ get (heap_of answering) (VRef 3) "extracted_text" = Ok (VStr EmptyString)
  /\ fst (renderResults Html.parse_html (VRef 6) answering) = Ok tt
  /\ exists filename acards,
       resultsSection (snd (renderResults Html.parse_html (VRef 6) answering)) !! 1
       = Some (append_all
                 (querySelector "answer-grid"
                    (base_card Html.parse_html filename "Extracting text..."))
                 acards (base_card Html.parse_html filename "Extracting text...")).
Proof.
  assert (H1 : get (heap_of answering) (VRef 6) "photos" = Ok (VRef 5))
    by (vm_compute; reflexivity).
  assert (H2 : heap_of answering !! 5 = Some (OArr [VRef 4]))
    by (vm_compute; reflexivity).
  assert (H3 : get (heap_of answering) (VRef 4) "question" = Ok (VRef 3))
    by (vm_compute; reflexivity).
  assert (H4 : get (heap_of answering) (VRef 3) "extracted_text"
               = Ok (VStr EmptyString)) by (vm_compute; reflexivity).
  assert (H5 : fst (renderResults Html.parse_html (VRef 6) answering) = Ok tt)
    by (vm_compute; reflexivity).
  do 5 (split; [assumption|]).
  destruct (question_without_text Html.parse_html (VRef 6) answering 5 [VRef 4] 0
              (VRef 4) (VRef 3) (VStr EmptyString) H1 H2 eq_refl H3 eq_refl H4
              eq_refl H5)
    as (st & status & filename & acards & Hst & Hstatus & Hcard).
  assert (status = "processing") as ->.
  { vm_compute in Hst. injection Hst as <-. vm_compute in Hstatus. congruence. }
  exists filename, acards. exact Hcard.
Defined.

Lemma renderResults_header parse data s st status :
  get (heap_of s) data "status" = Ok st ->
  ToString (heap_of s) st = Ok status ->
  renderResults parse data s
  = render_cards parse data
      (set_resultsSection (parse (header_markup status status)) s).
Proof.
  intros Hst Ht. unfold renderResults. fold (render_cards parse data).
  erewrite bind_ok; [|unfold get_prop, read; by rewrite Hst].
  erewrite bind_ok; [|unfold to_string, read; by rewrite Ht].
  erewrite bind_ok; [|unfold get_prop, read; by rewrite Hst].
  erewrite bind_ok; [|unfold to_string, read; by rewrite Ht].
  erewrite bind_ok; [|reflexivity]. reflexivity.
Qed.

(** X13.  Every rendering starts from an empty region.  Once the status of
    the record can be read and printed, what the render step leaves in the
    results region, and whether it returns, is the same whatever the region
    held before: the header comes first and nothing of a previous rendering
    or message remains. *)
Theorem render_replaces_region parse data s st status X :
  get (heap_of s) data "status" = Ok st ->
  ToString (heap_of s) st = Ok status ->
  renderResults parse data (set_resultsSection X s) = renderResults parse data s
  /\ exists cards,
       resultsSection (snd (renderResults parse data s))
       = parse (header_markup status status) ++ cards.
Proof.
  intros Hst Ht. split.
  - rewrite (renderResults_header parse data s st status Hst Ht).
    by rewrite (renderResults_header parse data (set_resultsSection X s) st status).
  - rewrite (renderResults_header parse data s st status Hst Ht).
    destruct (appending_render_cards parse data s) as (r & out & Hc).
    fold (render_cards parse data) in Hc.
    exists out. by rewrite (Hc (parse (header_markup status status))).
Qed.

Lemma render_replaces_region_witness :
  get (heap_of answering) (VRef 6) "status" = Ok (VStr "processing")
  /\ ToString (heap_of answering) (VStr "processing") = Ok "processing"
  /\ renderResults Html.parse_html (VRef 6)
       (set_resultsSection (Html.parse_html poll_failed_markup) answering)
     = renderResults Html.parse_html (VRef 6) answering.
Proof.
  assert (H1 : get (heap_of answering) (VRef 6) "status" = Ok (VStr "processing"))
    by (vm_compute; reflexivity).
  split; [exact H1|]. split; [apply ToString_VStr|].
  exact (proj1 (render_replaces_region Html.parse_html (VRef 6) answering
                  (VStr "processing") "processing"
                  (Html.parse_html poll_failed_markup) H1 (ToString_VStr _ _))).
Defined.

(** X14.  A record without [status] never ends the polling by itself.  For
    a 2xx body that has no [status] member and is rendered, the header shows
    "undefined" as the status and the tick leaves timers and button as they
    were. *)
Theorem poll_record_without_status parse s i code j :
  response_ok code = true ->
  json_field "status" j = None ->
  fst (renderResults parse (json_data j s) (json_state j s)) = Ok tt ->
  let s' := poll_settled parse i (Response code (Parsed j)) s in
  (exists cards,
     resultsSection s' = parse (header_markup "undefined" "undefined") ++ cards)
  /\ intervals s' = intervals s
  /\ button_disabled s' = button_disabled s
  /\ button_text s' = button_text s.
Proof.
  intros Hok Hnone Hrender s'.
  destruct (renderResults_ok_status _ _ _ Hrender) as (st & Hst).
  assert (st = VUndef) as ->.
  { pose proof (json_data_field "status" j s) as H.
    destruct j as [ | | | |items|fields]; try congruence.
    rewrite Hnone in H. congruence. }
  destruct (renderResults_ok _ _ _ Hrender)
    as (st' & t & out & Hst' & Ht & _ & Hres).
  rewrite Hst in Hst'. injection Hst' as <-.
  rewrite ToString_VUndef in Ht. injection Ht as <-.
  pose proof (renderResults_frame parse (json_data j s) (json_state j s)) as Hframe.
  destruct (renderResults parse (json_data j s) (json_state j s)) as [r s2] eqn:Hrun.
  simpl in Hrender, Hframe, Hres. subst r.
  subst s'. rewrite (poll_settled_rendered _ _ _ _ _ _ _ Hok Hrun Hst). simpl.
  split; [by exists out|]. by rewrite Hframe.
Qed.

Lemma poll_record_without_status_witness :
  let j := JObj [("photos", JArr [])] in
  let s' := poll_settled Html.parse_html 0 (Response 200 (Parsed j)) polling in
  response_ok 200 = true
  /\ json_field "status" j = None
  /\ fst (renderResults Html.parse_html (json_data j polling) (json_state j polling))
     = Ok tt
  /\ intervals s' = intervals polling
  /\ button_disabled s' = true.
Proof.
  assert (H3 : fst (renderResults Html.parse_html
                      (json_data (JObj [("photos", JArr [])]) polling)
                      (json_state (JObj [("photos", JArr [])]) polling)) = Ok tt)
    by (vm_compute; reflexivity).
  split; [reflexivity|]. split; [reflexivity|]. split; [exact H3|].
  destruct (poll_record_without_status Html.parse_html polling 0 200
              (JObj [("photos", JArr [])]) eq_refl eq_refl H3)
    as (_ & Hint & Hdis & _).
  split; [exact Hint | rewrite Hdis; reflexivity].
Defined.
